(** * TinyRemoteRF: the ASK/OOK telegram of the ATtiny13 remote control

    A shallow embedding of the two programs of the repository:

    - the transmitter firmware ([sendByte], [sendCode] and the pulse macros),
      which drives the DATA pin of PORTB and busy-waits with [_delay_us];
    - the receiver sketch ([loop]), which measures the high pulses on its
      input pin with Arduino's [pulseIn] and prints what it decoded.

    The transmitter is modelled as a state transformer on the output port
    together with the wave form it has produced so far; the receiver as a
    function from the sequence of [pulseIn] results to the lines it prints. *)

From Stdlib Require Import String ZArith List Bool Lia.
Import ListNotations.
Open Scope Z_scope.

(** ** Fixed-width integers *)

Definition u8 (x : Z) : Z := x mod 256.
Definition u16 (x : Z) : Z := x mod 65536.
Definition u32 (x : Z) : Z := x mod 4294967296.

(** ** The transmitter (ATtiny13 firmware) *)

Module Transmitter.

(** Pin and code definitions. *)
Definition DATA : Z := 0.   (* PB0 *)
Definition KEY1 : Z := 1.
Definition KEY2 : Z := 2.
Definition KEY3 : Z := 3.
Definition KEY4 : Z := 4.
Definition KEY5 : Z := 5.

Definition ADDR : Z := 0x55.
Definition CMD1 : Z := 0x01.
Definition CMD2 : Z := 0x02.
Definition CMD3 : Z := 0x03.
Definition CMD4 : Z := 0x04.
Definition CMD5 : Z := 0x05.

Definition BT_MASK : Z :=
  Z.lor (Z.shiftl 1 KEY1)
    (Z.lor (Z.shiftl 1 KEY2)
       (Z.lor (Z.shiftl 1 KEY3) (Z.lor (Z.shiftl 1 KEY4) (Z.shiftl 1 KEY5)))).

Definition RF_ERR : Z := 150.
Definition RF_PRE : Z := 32.
Definition RF_START : Z := 4.
Definition RF_REP : Z := 3.

(** One stretch of the output signal: the level of the DATA pin and the
    number of microseconds [_delay_us] held it. *)
Definition segment : Type := (bool * Z)%type.

(** The part of the microcontroller the telegram code touches: the output
    register and, as ghost state, the wave form emitted so far (oldest
    segment first). *)
Record mcu : Type := MCU { PORTB : Z; wave : list segment }.

(** [PORTB |= (1<<DATA)] *)
Definition RF_on (s : mcu) : mcu :=
  MCU (u8 (Z.lor (PORTB s) (Z.shiftl 1 DATA))) (wave s).

(** [PORTB &= ~(1<<DATA)] *)
Definition RF_off (s : mcu) : mcu :=
  MCU (u8 (Z.land (PORTB s) (Z.lnot (Z.shiftl 1 DATA)))) (wave s).

(** [_delay_us(us)]: the pin keeps its level for [us] microseconds. *)
Definition _delay_us (us : Z) (s : mcu) : mcu :=
  MCU (PORTB s) (wave s ++ [(Z.testbit (PORTB s) DATA, us)]).

(** The macros that modulate the signal. *)
Definition startPulse (s : mcu) : mcu :=
  _delay_us (6 * RF_ERR - 5) (RF_off (_delay_us (6 * RF_ERR) (RF_on s))).

Definition bit0Pulse (s : mcu) : mcu :=
  _delay_us (2 * RF_ERR - 5) (RF_off (_delay_us (2 * RF_ERR) (RF_on s))).

Definition bit1Pulse (s : mcu) : mcu :=
  _delay_us (4 * RF_ERR - 5) (RF_off (_delay_us (4 * RF_ERR) (RF_on s))).

Definition stopPause (s : mcu) : mcu := _delay_us (6 * RF_ERR) s.

(** [for (i = n; i; i--) body] with a [uint8_t] counter that the body does
    not read: the body runs [n] times. *)
Definition count_down (n : Z) (body : mcu -> mcu) (s : mcu) : mcu :=
  Nat.iter (Z.to_nat n) body s.

(** The loop of [sendByte]: [i] iterations are left and [value] is the
    current content of the [uint8_t] parameter. *)
Fixpoint sendByte_loop (i : nat) (value : Z) (s : mcu) : mcu :=
  match i with
  | O => s
  | S i' =>
      let s' := if Z.land value 0x80 =? 0 then bit0Pulse s else bit1Pulse s in
      sendByte_loop i' (u8 (Z.shiftl value 1)) s'
  end.

Definition sendByte (value : Z) (s : mcu) : mcu := sendByte_loop 8 value s.

(** One pass of the repeat loop of [sendCode]. *)
Definition sendFrame (cmd : Z) (s : mcu) : mcu :=
  let s := count_down RF_START startPulse s in
  let s := sendByte ADDR s in
  let s := sendByte cmd s in
  let s := sendByte (u8 (Z.lnot cmd)) s in
  stopPause s.

Definition sendCode (cmd : Z) (s : mcu) : mcu :=
  let s := count_down RF_PRE bit0Pulse s in
  count_down RF_REP (sendFrame cmd) s.

(** The state [main] has set up when it enters its loop: pull-ups on the
    button pins, DATA low, nothing sent yet. *)
Definition idle : mcu := MCU BT_MASK [].

(** One pass of the main loop after the wake-up and the debounce delay:
    [PINB] is what the input register reads (a pressed key pulls its pin
    low), and exactly one pressed key sends its command. *)
Definition main_pass (PINB : Z) (s : mcu) : mcu :=
  let buttons := u8 (Z.land (Z.lnot PINB) BT_MASK) in
  if buttons =? Z.shiftl 1 KEY1 then sendCode CMD1 s
  else if buttons =? Z.shiftl 1 KEY2 then sendCode CMD2 s
  else if buttons =? Z.shiftl 1 KEY3 then sendCode CMD3 s
  else if buttons =? Z.shiftl 1 KEY4 then sendCode CMD4 s
  else if buttons =? Z.shiftl 1 KEY5 then sendCode CMD5 s
  else s.

End Transmitter.

(** ** The receiver (Arduino sketch) *)

Module Receiver.

Definition RF_ERR : Z := 150.
Definition RF_START : Z := 4.

(** What one call of [pulseIn(DATA_PIN, HIGH, timeout)] met on the input
    pin: a complete high pulse of [us] microseconds, or no pulse within the
    time-out. *)
Inductive sample : Type :=
| NoPulse
| Pulse (us : Z).

(** Arduino's [pulseIn] is a primitive of the board library, not code of
    this repository: it returns the length of the pulse in microseconds, or
    0 when no complete pulse arrived before the time-out. The environment
    decides which of the two happens, so the time-out is kept only as the
    argument the sketch passes. *)
Definition pulseIn (timeout : Z) (x : sample) : Z :=
  match x with
  | NoPulse => 0
  | Pulse us => us
  end.

(** What the sketch writes to the serial interface. *)
Inductive serial : Type :=
| Print (text : string)
| Println (text : string)
| PrintlnHex (value : Z).

(** *** Waiting for the start bits *)

(** The body of the [do ... while(--counter)] loop: the new value of
    [counter] after the assignment and the pre-decrement. *)
Definition start_step (counter : Z) (x : sample) : Z :=
  let duration := u16 (pulseIn (14 * RF_ERR) x) in
  let counter :=
    if (duration <? 5 * RF_ERR) || (duration >? 7 * RF_ERR) then 5 else counter in
  u8 (counter - 1).

(** How the do-while loop stands after a finite run of measurements. *)
Inductive sync : Type :=
| Synced (rest : list sample)      (* the loop was left; [rest] is unread *)
| AwaitStart (counter : Z).        (* still in the loop, input used up *)

Fixpoint wait_start (counter : Z) (input : list sample) : sync :=
  match input with
  | [] => AwaitStart counter
  | x :: rest =>
      let counter := start_step counter x in
      if counter =? 0 then Synced rest else wait_start counter rest
  end.

(** *** Reading the bytes *)

(** One pass of the [for] loop that reads the bits. *)
Inductive bit_step : Type :=
| Break
| Next (data : Z).

Definition read_bit (data : Z) (x : sample) : bit_step :=
  let duration := u16 (pulseIn (10 * RF_ERR) x) in
  if (duration <? RF_ERR) || (duration >? 5 * RF_ERR) then Break
  else
    let data := u32 (Z.shiftl data 1) in
    Next (if duration >? 3 * RF_ERR then Z.lor data 1 else data).

(** How the [for] loop stands after a finite run of measurements. *)
Inductive bits : Type :=
| Read (data : Z) (rest : list sample)   (* the loop was left *)
| ReadingBits (i : nat) (data : Z).      (* [i] passes to go, input used up *)

Fixpoint read_bits (i : nat) (data : Z) (input : list sample) : bits :=
  match i with
  | O => Read data input
  | S i' =>
      match input with
      | [] => ReadingBits i data
      | x :: rest =>
          match read_bit data x with
          | Break => Read data rest
          | Next data' => read_bits i' data' rest
          end
      end
  end.

(** *** Checking the reading *)

Definition check_reading (data : Z) : list serial :=
  if Z.land data 0x01000000 =? 0 then
    [Println "Incomplete Reading !"]
  else
    [Println "Telegram received:";
     Print "Address: "; PrintlnHex (Z.land (Z.shiftr data 16) 0xFF);
     Print "Command: "; PrintlnHex (Z.land (Z.shiftr data 8) 0xFF);
     Print "Inverse: "; PrintlnHex (Z.land data 0xFF);
     if Z.land (Z.shiftr data 8) 0xFF =? Z.land (u32 (Z.lnot data)) 0xFF
     then Println "Valid Code Reading"
     else Println "Invalid Code Reading"].

(** *** One call of [loop] *)

Inductive outcome : Type :=
| Returned (out : list serial) (rest : list sample)
| StuckAwaitingStart (counter : Z)
| StuckReadingBits (i : nat) (data : Z).

(** [loop] on the measurements [input]: what it printed and what it left
    unread, or the loop it is still in when the measurements given do not
    suffice to leave it. The built-in LED and the [delayMicroseconds]
    after the start bits do not touch the input or the serial output. *)
Definition loop (input : list sample) : outcome :=
  match wait_start RF_START input with
  | AwaitStart counter => StuckAwaitingStart counter
  | Synced rest =>
      match read_bits 24 1 rest with
      | ReadingBits i data => StuckReadingBits i data
      | Read data rest' => Returned (check_reading data) rest'
      end
  end.

End Receiver.

(** ** The radio link between the two programs *)

Module Link.
Import Transmitter Receiver.

(** Adjacent stretches of the same level are one stretch of the signal. *)
Fixpoint normalize (w : list segment) : list segment :=
  match w with
  | [] => []
  | (level, us) :: w' =>
      match normalize w' with
      | (level', us') :: rest =>
          if Bool.eqb level level' then (level, us + us') :: rest
          else (level, us) :: (level', us') :: rest
      | [] => [(level, us)]
      end
  end.

(** The lengths of the bursts (high stretches) of a wave form, in order:
    what [pulseIn(DATA_PIN, HIGH, _)] measures one after the other when
    the signal arrives without jitter and every burst ends within the
    time-out of the call that measures it. That is so from the preamble
    to the last bit of the first repetition, hence for the first call of
    [loop] on a telegram (module [Timed] below follows the time-outs);
    across a stop gap a call can time out and a burst be missed, so the
    list says nothing about what later calls measure. *)
Definition bursts (w : list segment) : list Z :=
  map snd (filter fst (normalize w)).

Definition received (w : list segment) : list sample :=
  map Pulse (bursts w).

(** The time the signal stays off right after its [n]-th burst (counted
    from 0), in a normalized wave form. *)
Fixpoint gap_after (n : nat) (w : list segment) : option Z :=
  match w with
  | [] => None
  | (true, _) :: w' =>
      match n with
      | O => match w' with
             | (false, gap) :: _ => Some gap
             | _ => None
             end
      | S n' => gap_after n' w'
      end
  | (false, _) :: w' => gap_after n w'
  end.

(** The burst that carries the last data bit of repetition [k] (from 0):
    the preamble and [k + 1] frames of start bits and 24 data bits lie
    before its end. *)
Definition final_bit (k : nat) : nat :=
  (Z.to_nat RF_PRE + (k + 1) * (Z.to_nat Transmitter.RF_START + 24) - 1)%nat.

End Link.

(** ** The protocol as the specification words it *)

Module Protocol.
Import Transmitter Receiver.

Definition ERR : Z := 150.
Definition bit0Width : Z := 2 * ERR.
Definition bit1Width : Z := 4 * ERR.
Definition startWidth : Z := 6 * ERR.
Definition preambleBitCount : nat := 32.
Definition startBitCount : nat := 4.
Definition repeatCount : nat := 3.
Definition minStopGap : Z := 8 * ERR.

(** The trailing-edge compensation of the pulse macros, in microseconds. *)
Definition compensation : Z := 5.

(** A pulse: a burst and the space after it. *)
Definition pulse (width : Z) : list segment :=
  [(true, width); (false, width - compensation)].

(** The bits of a byte, most significant first. *)
Definition byte_bits (value : Z) : list bool :=
  map (Z.testbit value) [7; 6; 5; 4; 3; 2; 1; 0].

Definition bit_width (b : bool) : Z := if b then bit1Width else bit0Width.

Definition byte_pulses (value : Z) : list segment :=
  flat_map (fun b => pulse (bit_width b)) (byte_bits value).

(** The bitwise complement of a byte. *)
Definition complement (value : Z) : Z := Z.lxor value 0xFF.

(** The delay [stopPause] adds after the space of the last bit. *)
Definition stopHold : Z := 6 * ERR.

Definition start_pulses : list segment :=
  concat (repeat (pulse startWidth) startBitCount).

Definition data_pulses (address command : Z) : list segment :=
  byte_pulses address ++ byte_pulses command ++ byte_pulses (complement command).

Definition frame (address command : Z) : list segment :=
  start_pulses ++ data_pulses address command ++ [(false, stopHold)].

Definition preamble : list segment :=
  concat (repeat (pulse bit0Width) preambleBitCount).

Definition telegram (address command : Z) : list segment :=
  preamble ++ concat (repeat (frame address command) repeatCount).

(** The value the sketch's [uint16_t duration] holds after a measurement. *)
Definition measured (x : sample) : Z :=
  match x with
  | NoPulse => 0
  | Pulse us => us mod 65536
  end.

(** The acceptance band of a start bit, [5*ERR, 7*ERR]. *)
Definition in_start_band (x : sample) : bool :=
  (5 * ERR <=? measured x) && (measured x <=? 7 * ERR).

(** The acceptance band of a data bit, [ERR, 5*ERR], and its value. *)
Definition is_bit (x : sample) : bool :=
  (ERR <=? measured x) && (measured x <=? 5 * ERR).

Definition bit_value (x : sample) : bool := 3 * ERR <? measured x.

(** The measurements [p] end with [startBitCount] consecutive durations in
    the start band. *)
Definition ends_with_start (p : list sample) : Prop :=
  exists before w,
    p = before ++ w /\ length w = startBitCount /\ forallb in_start_band w = true.

(** With [h] measured before, start-sync is first achieved exactly at the
    end of [p]. *)
Definition first_start_after (h p : list sample) : Prop :=
  ends_with_start (h ++ p) /\
  forall q r, p = q ++ r -> r <> [] -> ~ ends_with_start (h ++ q).

(** Start-sync is first achieved exactly at the end of [p]. *)
Definition first_start (p : list sample) : Prop :=
  ends_with_start p /\
  forall q r, p = q ++ r -> r <> [] -> ~ ends_with_start q.

(** Start-sync is achieved nowhere in [input]. *)
Definition no_start (input : list sample) : Prop :=
  forall q r, input = q ++ r -> ~ ends_with_start q.

(** The number of measurements in the start band at the head of a list,
    and at the end of one. *)
Fixpoint leading (l : list sample) : nat :=
  match l with
  | [] => O
  | x :: l' => if in_start_band x then S (leading l') else O
  end.

Definition trailing (p : list sample) : nat := leading (rev p).

(** The number [bs] spells, most significant bit first, shifted in behind
    [data]. *)
Definition shift_in (data : Z) (bs : list bool) : Z :=
  fold_left (fun d (b : bool) => 2 * d + (if b then 1 else 0)) bs data.

(** The byte number [k] (0 is sent first) among 24 data bits. *)
Definition byte_at (k : nat) (bs : list bool) : Z :=
  shift_in 0 (firstn 8 (skipn (8 * k) bs)).

(** The lines the sketch prints for a frame and its validity flag. *)
Definition frame_lines (address command inverse : Z) (valid : bool) : list serial :=
  [Println "Telegram received:";
   Print "Address: "; PrintlnHex address;
   Print "Command: "; PrintlnHex command;
   Print "Inverse: "; PrintlnHex inverse;
   Println (if valid then "Valid Code Reading" else "Invalid Code Reading")].

Definition incomplete_lines : list serial := [Println "Incomplete Reading !"].

(** An endless sequence of measurements and its first [n] elements. *)
Definition stream : Type := nat -> sample.

Definition prefix (s : stream) (n : nat) : list sample := map s (seq 0 n).

(** The receiver hears nothing: every measurement times out. *)
Definition silence : stream := fun _ => NoPulse.

Definition never_synced (s : stream) : Prop :=
  forall n, ~ ends_with_start (prefix s n).

Definition returns (s : stream) : Prop :=
  exists n out rest, loop (prefix s n) = Returned out rest.

(** Every burst of the wave form has one of the three widths and is
    followed by a space that is shorter by the compensation. *)
Fixpoint compensated (w : list segment) : bool :=
  match w with
  | [] => true
  | (false, _) :: w' => compensated w'
  | (true, on) :: w' =>
      match w' with
      | (false, off) :: w'' =>
          (off =? on - compensation)
          && ((on =? bit0Width) || (on =? bit1Width) || (on =? startWidth))
          && compensated w''
      | _ => false
      end
  end.

(** The bursts of one frame: the start bits and the 24 data bits. *)
Definition frame_bursts (address command : Z) : list Z :=
  repeat startWidth startBitCount ++
  map bit_width (byte_bits address ++ byte_bits command ++ byte_bits (complement command)).

(** The DATA pin is low. *)
Definition low (s : mcu) : Prop := Z.testbit (PORTB s) DATA = false.

(** The bytes a [uint8_t] can hold. *)
Definition bytes : list Z := map Z.of_nat (seq 0 256).

End Protocol.

(** ** Keys, air time and disturbed signals *)

Module Usage.
Import Transmitter Receiver Link Protocol.

(** The five key pins. *)
Definition keys : list Z := [KEY1; KEY2; KEY3; KEY4; KEY5].

(** A pressed key pulls its pin low. *)
Definition pressed (PINB key : Z) : bool := negb (Z.testbit PINB key).

Definition pressed_keys (PINB : Z) : list Z := filter (pressed PINB) keys.

(** The command wired to a key. *)
Definition command_of (key : Z) : Z :=
  if key =? KEY1 then CMD1
  else if key =? KEY2 then CMD2
  else if key =? KEY3 then CMD3
  else if key =? KEY4 then CMD4
  else CMD5.

(** The command the [switch] of [main] selects, if any. *)
Definition selected (PINB : Z) : option Z :=
  let buttons := u8 (Z.land (Z.lnot PINB) BT_MASK) in
  if buttons =? Z.shiftl 1 KEY1 then Some CMD1
  else if buttons =? Z.shiftl 1 KEY2 then Some CMD2
  else if buttons =? Z.shiftl 1 KEY3 then Some CMD3
  else if buttons =? Z.shiftl 1 KEY4 then Some CMD4
  else if buttons =? Z.shiftl 1 KEY5 then Some CMD5
  else None.

(** The command one would expect from the keys that are down: that of the
    only key pressed, none when no key or more than one is down. *)
Definition single_key (PINB : Z) : option Z :=
  match pressed_keys PINB with
  | [key] => Some (command_of key)
  | _ => None
  end.

Definition same_choice (a b : option Z) : bool :=
  match a, b with
  | Some x, Some y => x =? y
  | None, None => true
  | _, _ => false
  end.

(** The output register with the DATA bit cleared. *)
Definition data_low (portb : Z) : Z := Z.land portb (Z.lnot (Z.shiftl 1 DATA)).

(** The register holds [p], with the DATA bit as it was or cleared. *)
Definition holds (p : Z) (s : mcu) : Prop :=
  PORTB s = p \/ PORTB s = data_low p.

(** The time a wave form takes, and the time its signal is on. *)
Definition air_time (w : list segment) : Z :=
  fold_right (fun (x : segment) t => snd x + t) 0 w.

Definition on_time (w : list segment) : Z :=
  fold_right (fun (x : segment) t => (if fst x then snd x else 0) + t) 0 w.

(** A measured duration that is off its nominal value by less than the
    error width. *)
Definition close (nominal measured_us : Z) : Prop :=
  Z.abs (measured_us - nominal) < Receiver.RF_ERR.

(** The bit list with bit number [k] (from 0) misread. *)
Fixpoint flip (k : nat) (bs : list bool) : list bool :=
  match bs with
  | [] => []
  | b :: bs' =>
      match k with
      | O => negb b :: bs'
      | S k' => b :: flip k' bs'
      end
  end.

(** The 24 data bits of a frame. *)
Definition frame_bits (address command : Z) : list bool :=
  byte_bits address ++ byte_bits command ++ byte_bits (complement command).

End Usage.

(** ** The receiver on a signal in time *)

Module Timed.
Import Transmitter Receiver Link Protocol.

(** A signal from now on: stretches of alternating level, the first one
    possibly begun already; after the last one the line stays low. *)
Definition signal : Type := list segment.

(** The signal [us] microseconds later. *)
Fixpoint advance (us : Z) (now : signal) : signal :=
  match now with
  | [] => []
  | (level, d) :: later =>
      if us <? d then (level, d - us) :: later else advance (us - d) later
  end.

(** Arduino's [pulseIn(DATA_PIN, HIGH, timeout)] on a signal: it lets a
    pulse that is in progress end, waits for the line to go high and
    measures how long it stays high. When the pulse is not over [timeout]
    microseconds after the call, the call gives up at that moment. *)
Definition pulseIn_at (timeout : Z) (now : signal) : sample * signal :=
  let '(t1, s1) := match now with
                   | (true, d) :: s => (d, s)
                   | _ => (0, now)
                   end in
  let '(t2, s2) := match s1 with
                   | (false, d) :: s => (d, s)
                   | _ => (0, s1)
                   end in
  match s2 with
  | (true, d) :: s3 =>
      if t1 + t2 + d <=? timeout then (Pulse d, s3) else (NoPulse, advance timeout now)
  | _ => (NoPulse, advance timeout now)
  end.

(** The do-while loop that waits for the start bits, with [fuel] calls of
    [pulseIn] at most: what was measured and the signal when the loop is
    left. The statements between two calls take no time. *)
Fixpoint wait_start_at (fuel : nat) (counter : Z) (now : signal)
  : option (list sample * signal) :=
  match fuel with
  | O => None
  | S fuel' =>
      let '(x, later) := pulseIn_at (14 * Receiver.RF_ERR) now in
      let counter := start_step counter x in
      if counter =? 0 then Some ([x], later)
      else
        match wait_start_at fuel' counter later with
        | Some (heard, s) => Some (x :: heard, s)
        | None => None
        end
  end.

(** The [for] loop that reads the bits: the word collected, what was
    measured and the signal when the loop is left. *)
Fixpoint read_bits_at (i : nat) (data : Z) (now : signal) : Z * list sample * signal :=
  match i with
  | O => (data, [], now)
  | S i' =>
      let '(x, later) := pulseIn_at (10 * Receiver.RF_ERR) now in
      match read_bit data x with
      | Break => (data, [x], later)
      | Next data' =>
          let '(d, heard, s) := read_bits_at i' data' later in
          (d, x :: heard, s)
      end
  end.

(** [loop] up to the check of the reading, with the
    [delayMicroseconds(2 * RF_ERR)] between its two loops. *)
Definition run_at (fuel : nat) (now : signal) : option (Z * list sample * signal) :=
  match wait_start_at fuel Receiver.RF_START now with
  | None => None
  | Some (heard1, s1) =>
      let '(data, heard2, s2) := read_bits_at 24 1 (advance (2 * Receiver.RF_ERR) s1) in
      Some (data, heard1 ++ heard2, s2)
  end.

Inductive outcome_at : Type :=
| Heard (out : list serial) (heard : list sample) (after : signal)
| StillWaiting.

(** One call of [loop] on a signal. *)
Definition loop_at (fuel : nat) (now : signal) : outcome_at :=
  match run_at fuel now with
  | Some (data, heard, after) => Heard (check_reading data) heard after
  | None => StillWaiting
  end.

(** The word of a complete frame: the leading 1 and the three bytes. *)
Definition frame_word (address command : Z) : Z :=
  16777216 + address * 65536 + command * 256 + (255 - command).

(** [run_at] collects the frame word of [command] from the signal. *)
Definition collects (command : Z) (now : signal) : bool :=
  match run_at 64 now with
  | Some (data, _, _) => data =? frame_word ADDR command
  | None => false
  end.



End Timed.

(** ** The pulse macros *)

Module PulseFacts.
Import Transmitter Protocol.

Lemma u8_low_bit (x : Z) (n : Z) : 0 <= n < 8 -> Z.testbit (u8 x) n = Z.testbit x n.
Proof.
  intros Hn. unfold u8. change 256 with (2 ^ 8).
  apply Z.mod_pow2_bits_low. lia.
Qed.

Lemma level_after_on (s : mcu) : Z.testbit (PORTB (RF_on s)) DATA = true.
Proof.
  unfold RF_on, DATA; cbn [PORTB].
  rewrite u8_low_bit by lia.
  rewrite Z.lor_spec. cbn. apply orb_true_r.
Qed.

Lemma level_after_off (s : mcu) : Z.testbit (PORTB (RF_off s)) DATA = false.
Proof.
  unfold RF_off, DATA; cbn [PORTB].
  rewrite u8_low_bit by lia.
  rewrite Z.land_spec. cbn. apply andb_false_r.
Qed.

(** A burst of [on] microseconds and a space of [off] microseconds. *)
Lemma on_off_wave (on off : Z) (s : mcu) :
  wave (_delay_us off (RF_off (_delay_us on (RF_on s)))) =
  wave s ++ [(true, on); (false, off)].
Proof.
  unfold _delay_us at 1. cbn [wave PORTB].
  rewrite level_after_off.
  change (wave (RF_off (_delay_us on (RF_on s)))) with (wave (_delay_us on (RF_on s))).
  unfold _delay_us. cbn [wave]. rewrite level_after_on.
  change (wave (RF_on s)) with (wave s).
  now rewrite <- app_assoc.
Qed.

Lemma startPulse_wave (s : mcu) : wave (startPulse s) = wave s ++ pulse startWidth.
Proof. apply on_off_wave. Qed.

Lemma bit0Pulse_wave (s : mcu) : wave (bit0Pulse s) = wave s ++ pulse bit0Width.
Proof. apply on_off_wave. Qed.

Lemma bit1Pulse_wave (s : mcu) : wave (bit1Pulse s) = wave s ++ pulse bit1Width.
Proof. apply on_off_wave. Qed.

Lemma stopPause_wave (s : mcu) :
  Z.testbit (PORTB s) DATA = false ->
  wave (stopPause s) = wave s ++ [(false, stopHold)].
Proof. intros H. unfold stopPause, _delay_us. cbn [wave]. now rewrite H. Qed.

(** After any pulse the pin is low. *)
Lemma low_after_pulse (on off : Z) (s : mcu) :
  Z.testbit (PORTB (_delay_us off (RF_off (_delay_us on (RF_on s))))) DATA = false.
Proof. unfold _delay_us at 1. cbn [PORTB]. apply level_after_off. Qed.

End PulseFacts.

(** ** The structure of what [sendByte] and [sendCode] emit *)

Module TelegramFacts.
Import Transmitter Protocol PulseFacts.

Lemma mask_msb (value : Z) : (Z.land value 0x80 =? 0) = negb (Z.testbit value 7).
Proof.
  change 0x80 with (2 ^ 7).
  destruct (Z.testbit value 7) eqn:Hb; cbn [negb].
  - apply Z.eqb_neq. intros H0.
    assert (Hc : Z.testbit (Z.land value (2 ^ 7)) 7 = true).
    { rewrite Z.land_spec, Hb. reflexivity. }
    rewrite H0 in Hc. discriminate.
  - apply Z.eqb_eq. apply Z.bits_inj'. intros n Hn.
    rewrite Z.land_spec, Z.bits_0, Z.pow2_bits_eqb by lia.
    destruct (Z.eqb_spec 7 n) as [<- | _].
    + now rewrite Hb.
    + apply andb_false_r.
Qed.

Lemma shifted_bit (value k : Z) :
  0 <= k < 7 -> Z.testbit (u8 (Z.shiftl value 1)) (k + 1) = Z.testbit value k.
Proof.
  intros Hk. rewrite u8_low_bit by lia.
  rewrite Z.shiftl_spec by lia. f_equal. lia.
Qed.

Lemma pulse_low_0 (s : mcu) : low (bit0Pulse s).
Proof. apply low_after_pulse. Qed.

Lemma pulse_low_1 (s : mcu) : low (bit1Pulse s).
Proof. apply low_after_pulse. Qed.

Lemma pulse_low_start (s : mcu) : low (startPulse s).
Proof. apply low_after_pulse. Qed.

(** One pass of the loop of [sendByte] sends the top bit of [value]. *)
Lemma sendByte_step (i : nat) (value : Z) (s : mcu) :
  sendByte_loop (S i) value s =
  sendByte_loop i (u8 (Z.shiftl value 1))
    (if Z.testbit value 7 then bit1Pulse s else bit0Pulse s).
Proof.
  cbn [sendByte_loop]. rewrite mask_msb.
  now destruct (Z.testbit value 7).
Qed.

Lemma bit_pulse_wave (b : bool) (s : mcu) :
  wave (if b then bit1Pulse s else bit0Pulse s) = wave s ++ pulse (bit_width b).
Proof. destruct b; [apply bit1Pulse_wave | apply bit0Pulse_wave]. Qed.

Lemma bit_pulse_low (b : bool) (s : mcu) : low (if b then bit1Pulse s else bit0Pulse s).
Proof. destruct b; [apply pulse_low_1 | apply pulse_low_0]. Qed.

(** With [i] passes to go the loop sends bits 7, 6, ... of the current
    [value], which are bits 7, 6, ... of the byte as it stands. *)
Lemma sendByte_loop_wave (i : nat) :
  (i <= 8)%nat ->
  forall value s,
    wave (sendByte_loop i value s) =
    wave s ++
    flat_map (fun b => pulse (bit_width b))
      (map (fun k => Z.testbit value (7 - Z.of_nat k)) (seq 0 i)).
Proof.
  induction i as [|i IH]; intros Hi value s.
  - cbn. now rewrite app_nil_r.
  - rewrite sendByte_step, IH by lia.
    rewrite bit_pulse_wave, <- app_assoc. f_equal.
    cbn [seq map flat_map]. f_equal.
    rewrite <- seq_shift, map_map. f_equal.
    apply map_ext_in. intros k Hk. apply in_seq in Hk.
    replace (7 - Z.of_nat k) with (7 - Z.of_nat (S k) + 1) by lia.
    apply shifted_bit. lia.
Qed.

Lemma sendByte_loop_low (i : nat) :
  forall value s, low s -> low (sendByte_loop i value s).
Proof.
  induction i as [|i IH]; intros value s Hs; [exact Hs|].
  rewrite sendByte_step. apply IH, bit_pulse_low.
Qed.

Lemma sendByte_wave (value : Z) (s : mcu) :
  wave (sendByte value s) = wave s ++ byte_pulses value.
Proof. unfold sendByte. now rewrite sendByte_loop_wave by lia. Qed.

Lemma sendByte_low (value : Z) (s : mcu) : low s -> low (sendByte value s).
Proof. apply sendByte_loop_low. Qed.

(** A counted loop whose body appends the same stretch of signal. *)
Lemma iter_wave (body : mcu -> mcu) (shape : list segment) :
  (forall s, wave (body s) = wave s ++ shape) ->
  forall n s, wave (Nat.iter n body s) = wave s ++ concat (repeat shape n).
Proof.
  intros Hbody n. induction n as [|n IH]; intros s.
  - cbn. now rewrite app_nil_r.
  - rewrite Nat.iter_succ_r, IH, Hbody, <- app_assoc. reflexivity.
Qed.

Lemma iter_low (body : mcu -> mcu) :
  (forall s, low (body s)) -> forall n s, low s -> low (Nat.iter n body s).
Proof.
  intros Hbody n s Hs. destruct n as [|n]; [exact Hs|].
  cbn [Nat.iter]. apply Hbody.
Qed.

Lemma inverse_byte (cmd : Z) : u8 (Z.lnot cmd) = complement (u8 cmd).
Proof.
  unfold complement. apply Z.bits_inj'. intros n Hn.
  rewrite Z.lxor_spec. unfold u8. change 256 with (2 ^ 8).
  destruct (Z.ltb_spec n 8) as [Hlt | Hge].
  - rewrite !Z.mod_pow2_bits_low, Z.lnot_spec by lia.
    change 255 with (Z.ones 8). rewrite Z.ones_spec_low by lia.
    now rewrite xorb_true_r.
  - rewrite !Z.mod_pow2_bits_high by lia.
    change 255 with (Z.ones 8). now rewrite Z.ones_spec_high by lia.
Qed.

Lemma sendFrame_wave (cmd : Z) (s : mcu) :
  0 <= cmd < 256 ->
  wave (sendFrame cmd s) = wave s ++ frame ADDR cmd.
Proof.
  intros Hc. unfold sendFrame, frame, data_pulses, count_down.
  rewrite stopPause_wave.
  2:{ (* the last of the RF_START start pulses left the pin low *)
      do 3 apply sendByte_low.
      change (Z.to_nat RF_START) with 4%nat. cbn [Nat.iter]. apply pulse_low_start. }
  rewrite !sendByte_wave, (iter_wave _ _ startPulse_wave).
  rewrite inverse_byte. unfold u8. rewrite Z.mod_small by lia.
  rewrite <- !app_assoc. reflexivity.
Qed.

Lemma sendFrame_low (cmd : Z) (s : mcu) : low (sendFrame cmd s).
Proof.
  unfold sendFrame, stopPause, low, _delay_us. cbn [PORTB].
  do 3 apply sendByte_low. unfold count_down.
  change (Z.to_nat RF_START) with 4%nat. cbn [Nat.iter]. apply pulse_low_start.
Qed.

Lemma sendCode_wave (cmd : Z) (s : mcu) :
  0 <= cmd < 256 ->
  wave (sendCode cmd s) = wave s ++ telegram ADDR cmd.
Proof.
  intros Hc. unfold sendCode, telegram, preamble, count_down.
  rewrite (iter_wave _ _ (fun s => sendFrame_wave cmd s Hc)).
  rewrite (iter_wave _ _ bit0Pulse_wave), <- app_assoc. reflexivity.
Qed.

End TelegramFacts.

(** ** Bits and bytes *)

Module BitFacts.
Import Protocol.

Lemma forall_bytes (P : Z -> bool) :
  forallb P bytes = true -> forall c, 0 <= c < 256 -> P c = true.
Proof.
  intros Hall c Hc. rewrite forallb_forall in Hall. apply Hall.
  unfold bytes. rewrite <- (Z2Nat.id c) by lia.
  apply in_map, in_seq. lia.
Qed.

Lemma mask_pow2 (value n : Z) :
  0 <= n -> (Z.land value (2 ^ n) =? 0) = negb (Z.testbit value n).
Proof.
  intros Hn. destruct (Z.testbit value n) eqn:Hb; cbn [negb].
  - apply Z.eqb_neq. intros H0.
    assert (Hc : Z.testbit (Z.land value (2 ^ n)) n = true).
    { rewrite Z.land_spec, Hb, Z.pow2_bits_true by lia. reflexivity. }
    rewrite H0, Z.bits_0 in Hc. discriminate.
  - apply Z.eqb_eq. apply Z.bits_inj'. intros m Hm.
    rewrite Z.land_spec, Z.bits_0, Z.pow2_bits_eqb by lia.
    destruct (Z.eqb_spec n m) as [<- | _].
    + now rewrite Hb.
    + apply andb_false_r.
Qed.

Lemma lor_one (d : Z) : 0 <= d -> Z.lor (2 * d) 1 = 2 * d + 1.
Proof. intros Hd. destruct d; try reflexivity. lia. Qed.

Lemma complement_byte (c : Z) : 0 <= c < 256 -> complement c = 255 - c.
Proof.
  intros Hc. apply Z.eqb_eq.
  apply (forall_bytes (fun c => complement c =? 255 - c)); [reflexivity | exact Hc].
Qed.

Lemma shift_in_app (d : Z) (a b : list bool) :
  shift_in d (a ++ b) = shift_in (shift_in d a) b.
Proof. apply fold_left_app. Qed.

Lemma shift_in_lin (bs : list bool) :
  forall d, shift_in d bs = d * 2 ^ Z.of_nat (length bs) + shift_in 0 bs.
Proof.
  induction bs as [|b bs IH]; intros d.
  - cbn. lia.
  - cbn [shift_in fold_left length]. fold (shift_in (2 * d + (if b then 1 else 0)) bs).
    fold (shift_in (2 * 0 + (if b then 1 else 0)) bs).
    rewrite IH, (IH (2 * 0 + _)).
    rewrite Nat2Z.inj_succ, Z.pow_succ_r by lia. ring.
Qed.

Lemma shift_in_range (bs : list bool) :
  0 <= shift_in 0 bs < 2 ^ Z.of_nat (length bs).
Proof.
  induction bs as [|b bs IH] using rev_ind.
  - cbn. lia.
  - rewrite shift_in_app, length_app, Nat2Z.inj_add. cbn [length shift_in fold_left].
    change (Z.of_nat 1) with 1. rewrite Z.pow_add_r, Z.pow_1_r by lia.
    destruct b; lia.
Qed.

Lemma shift_in_byte (v : Z) : 0 <= v < 256 -> shift_in 0 (byte_bits v) = v.
Proof.
  intros Hv. apply Z.eqb_eq.
  apply (forall_bytes (fun v => shift_in 0 (byte_bits v) =? v)); [reflexivity | exact Hv].
Qed.

Lemma byte_bits_length (v : Z) : length (byte_bits v) = 8%nat.
Proof. reflexivity. Qed.

(** 24 bits are three bytes. *)
Lemma three_bytes (bs : list bool) :
  length bs = 24%nat ->
  shift_in 1 bs = 16777216 + byte_at 0 bs * 65536 + byte_at 1 bs * 256 + byte_at 2 bs
  /\ 0 <= byte_at 0 bs < 256 /\ 0 <= byte_at 1 bs < 256 /\ 0 <= byte_at 2 bs < 256.
Proof.
  intros Hlen. unfold byte_at.
  change (skipn (8 * 0) bs) with bs.
  change (8 * 1)%nat with 8%nat. change (8 * 2)%nat with 16%nat.
  set (a := firstn 8 bs). set (r := skipn 8 bs).
  set (c := firstn 8 r). set (i := skipn 8 r).
  assert (Hbs : bs = a ++ c ++ i).
  { unfold a, c, i, r. now rewrite !firstn_skipn. }
  assert (Ha : length a = 8%nat) by (unfold a; rewrite length_firstn; lia).
  assert (Hr : length r = 16%nat) by (unfold r; rewrite length_skipn; lia).
  assert (Hc : length c = 8%nat) by (unfold c; rewrite length_firstn; lia).
  assert (Hi : length i = 8%nat) by (unfold i; rewrite length_skipn; lia).
  assert (Hi' : firstn 8 (skipn 16 bs) = i).
  { unfold i, r. rewrite skipn_skipn. change (8 + 8)%nat with 16%nat.
    apply firstn_all2. rewrite length_skipn. lia. }
  rewrite Hi'.
  pose proof (shift_in_range a) as Ra. pose proof (shift_in_range c) as Rc.
  pose proof (shift_in_range i) as Ri.
  rewrite Ha in Ra. rewrite Hc in Rc. rewrite Hi in Ri.
  change (2 ^ Z.of_nat 8) with 256 in *.
  repeat split; try lia.
  rewrite Hbs, !shift_in_app.
  rewrite (shift_in_lin i), (shift_in_lin c), (shift_in_lin a), Ha, Hc, Hi.
  change (2 ^ Z.of_nat 8) with 256. ring.
Qed.

End BitFacts.

(** ** The two loops of the receiver *)

Module ReceiverFacts.
Import Receiver Protocol BitFacts.

Lemma measured_pulseIn (timeout : Z) (x : sample) : u16 (pulseIn timeout x) = measured x.
Proof. destruct x; reflexivity. Qed.

Lemma measured_range (x : sample) : 0 <= measured x < 65536.
Proof. destruct x; cbn; [lia | apply Z.mod_pos_bound; lia]. Qed.

(** A measurement in the start band counts down, any other one sets the
    counter to 5, which the pre-decrement makes 4. *)
Lemma start_step_band (counter : Z) (x : sample) :
  start_step counter x = if in_start_band x then u8 (counter - 1) else 4.
Proof.
  unfold start_step, in_start_band. rewrite measured_pulseIn.
  change Receiver.RF_ERR with ERR. unfold ERR.
  destruct (Z.ltb_spec (measured x) (5 * 150)), (Z.gtb_spec (measured x) (7 * 150)),
    (Z.leb_spec (5 * 150) (measured x)), (Z.leb_spec (measured x) (7 * 150));
    cbn [orb andb]; try reflexivity; lia.
Qed.

Lemma read_bit_band (data : Z) (x : sample) :
  0 <= data < 2147483648 ->
  read_bit data x =
  if is_bit x then Next (2 * data + (if bit_value x then 1 else 0)) else Break.
Proof.
  intros Hd. unfold read_bit, is_bit, bit_value. rewrite measured_pulseIn.
  change Receiver.RF_ERR with ERR. unfold ERR.
  assert (Hs : u32 (Z.shiftl data 1) = 2 * data).
  { unfold u32. rewrite Z.shiftl_mul_pow2 by lia. rewrite Z.mod_small; lia. }
  rewrite Hs.
  destruct (Z.ltb_spec (measured x) 150), (Z.gtb_spec (measured x) (5 * 150)),
    (Z.leb_spec 150 (measured x)), (Z.leb_spec (measured x) (5 * 150));
    cbn [orb andb]; try reflexivity; try lia.
  destruct (Z.gtb_spec (measured x) (3 * 150)), (Z.ltb_spec (3 * 150) (measured x));
    try lia.
  - now rewrite lor_one by lia.
  - now rewrite Z.add_0_r.
Qed.

(** The loop shifts in one bit for every measurement in the bit band. *)
Lemma read_bits_accepted (xs : list sample) :
  forall i data rest,
    forallb is_bit xs = true ->
    (length xs <= i)%nat ->
    0 <= data ->
    (data + 1) * 2 ^ Z.of_nat (length xs) <= 4294967296 ->
    read_bits i data (xs ++ rest) =
    read_bits (i - length xs) (shift_in data (map bit_value xs)) rest.
Proof.
  induction xs as [|x xs IH]; intros i data rest Hall Hlen Hd Hbound.
  - cbn. now rewrite Nat.sub_0_r.
  - cbn [forallb] in Hall. apply andb_true_iff in Hall as [Hx Hxs].
    cbn [length] in Hlen, Hbound.
    rewrite Nat2Z.inj_succ, Z.pow_succ_r in Hbound by lia.
    assert (Hp : 0 < 2 ^ Z.of_nat (length xs)) by (apply Z.pow_pos_nonneg; lia).
    destruct i as [|i]; [lia|].
    cbn [app read_bits length Nat.sub map shift_in fold_left].
    rewrite read_bit_band, Hx by nia.
    destruct (bit_value x); (apply IH; [assumption | lia | lia | nia]).
Qed.

(** The first measurement outside the bit band ends the loop and is used up. *)
Lemma read_bits_break (i : nat) (data : Z) (x : sample) (rest : list sample) :
  0 <= data < 2147483648 ->
  is_bit x = false ->
  read_bits (S i) data (x :: rest) = Read data rest.
Proof. intros Hd Hx. cbn [read_bits]. now rewrite read_bit_band, Hx. Qed.

Lemma check_reading_incomplete (data : Z) :
  0 <= data < 16777216 -> check_reading data = incomplete_lines.
Proof.
  intros Hd. unfold check_reading.
  change 0x01000000 with (2 ^ 24). rewrite mask_pow2 by lia.
  replace (Z.testbit data 24) with false; [reflexivity|].
  symmetry. apply Z.testbit_false; [lia|].
  change (2 ^ 24) with 16777216. rewrite Z.div_small by lia. reflexivity.
Qed.

Lemma check_reading_frame (a c i : Z) :
  0 <= a < 256 -> 0 <= c < 256 -> 0 <= i < 256 ->
  check_reading (16777216 + a * 65536 + c * 256 + i) =
  frame_lines a c i (i =? complement c).
Proof.
  intros Ha Hc Hi. unfold check_reading, frame_lines.
  set (data := 16777216 + a * 65536 + c * 256 + i).
  change 0x01000000 with (2 ^ 24). rewrite mask_pow2 by lia.
  assert (H24 : Z.testbit data 24 = true).
  { apply Z.testbit_true; [lia|]. change (2 ^ 24) with 16777216.
    replace (data / 16777216) with 1; [reflexivity|].
    unfold data. apply Z.div_unique with (r := a * 65536 + c * 256 + i); lia. }
  rewrite H24. cbn [negb].
  change 0xFF with (Z.ones 8). rewrite !Z.land_ones, !Z.shiftr_div_pow2 by lia.
  change (2 ^ 8) with 256. change (2 ^ 16) with 65536.
  assert (HA : (data / 65536) mod 256 = a).
  { unfold data. Z.div_mod_to_equations. lia. }
  assert (HC : (data / 256) mod 256 = c).
  { unfold data. Z.div_mod_to_equations. lia. }
  assert (HI : data mod 256 = i).
  { unfold data. Z.div_mod_to_equations. lia. }
  assert (HN : u32 (Z.lnot data) mod 256 = 255 - i).
  { unfold u32, Z.lnot. rewrite <- Z.sub_1_r. unfold data.
    Z.div_mod_to_equations. lia. }
  rewrite HA, HC, HI, HN, complement_byte by lia.
  destruct (Z.eqb_spec c (255 - i)), (Z.eqb_spec i (255 - c)); try reflexivity; lia.
Qed.

End ReceiverFacts.

(** ** Start-sync *)

Module SyncFacts.
Import Receiver Protocol ReceiverFacts.

Lemma trailing_snoc (h : list sample) (x : sample) :
  trailing (h ++ [x]) = if in_start_band x then S (trailing h) else O.
Proof. unfold trailing. now rewrite rev_unit. Qed.

Lemma leading_all (l m : list sample) :
  forallb in_start_band l = true -> leading (l ++ m) = (length l + leading m)%nat.
Proof.
  induction l as [|x l IH]; intros Hall; [reflexivity|].
  cbn [forallb] in Hall. apply andb_true_iff in Hall as [Hx Hl].
  cbn [app leading length]. rewrite Hx, IH by assumption. reflexivity.
Qed.

Lemma leading_firstn (n : nat) :
  forall l, (n <= leading l)%nat ->
            length (firstn n l) = n /\ forallb in_start_band (firstn n l) = true.
Proof.
  induction n as [|n IH]; intros l Hn; [now split|].
  destruct l as [|x l]; cbn [leading] in Hn; [lia|].
  destruct (in_start_band x) eqn:Hx; [|lia].
  destruct (IH l) as [Hlen Hall]; [lia|].
  cbn [firstn length forallb]. rewrite Hlen, Hx, Hall. now split.
Qed.

Lemma forallb_rev (f : sample -> bool) (l : list sample) :
  forallb f (rev l) = forallb f l.
Proof.
  induction l as [|x l IH]; [reflexivity|].
  cbn [rev forallb]. rewrite forallb_app, IH. cbn [forallb].
  rewrite andb_true_r. apply andb_comm.
Qed.

(** Four in-band measurements at the end: the run at the end is 4 or more. *)
Lemma ends_with_start_trailing (p : list sample) :
  ends_with_start p <-> (4 <= trailing p)%nat.
Proof.
  unfold ends_with_start, trailing, startBitCount. split.
  - intros (before & w & -> & Hlen & Hall).
    rewrite rev_app_distr, leading_all by now rewrite forallb_rev.
    rewrite length_rev. lia.
  - intros H4. destruct (leading_firstn 4 (rev p) H4) as [Hlen Hall].
    exists (rev (skipn 4 (rev p))), (rev (firstn 4 (rev p))).
    rewrite <- rev_app_distr, firstn_skipn, rev_involutive.
    rewrite length_rev, forallb_rev. now repeat split.
Qed.

(** Moving the first measurement from the input to the history. *)
Lemma first_start_shift (h : list sample) (x : sample) (xs rest : list sample) :
  ~ ends_with_start h ->
  (exists p, xs = p ++ rest /\ first_start_after (h ++ [x]) p) <->
  (exists p, x :: xs = p ++ rest /\ first_start_after h p).
Proof.
  intros Hh. unfold first_start_after. split.
  - intros (p & -> & Hend & Hmin). exists (x :: p).
    rewrite <- app_assoc in Hend. repeat split; [exact Hend|].
    intros q r Hq Hr. destruct q as [|y q].
    + now rewrite app_nil_r.
    + cbn [app] in Hq. injection Hq as <- ->.
      specialize (Hmin q r eq_refl Hr). now rewrite <- app_assoc in Hmin.
  - intros (p & Hp & Hend & Hmin). destruct p as [|y p].
    + now rewrite app_nil_r in Hend.
    + cbn [app] in Hp. injection Hp as <- ->. exists p.
      rewrite <- app_assoc. repeat split; [exact Hend|].
      intros q r -> Hr. rewrite <- app_assoc. now apply (Hmin (x :: q) r).
Qed.

(** The counter is 4 minus the run of in-band measurements seen last, and
    the loop is left exactly when that run reaches 4. *)
Lemma wait_start_history (input : list sample) :
  forall h counter rest,
    (trailing h < 4)%nat ->
    counter = 4 - Z.of_nat (trailing h) ->
    wait_start counter input = Synced rest <->
    exists p, input = p ++ rest /\ first_start_after h p.
Proof.
  induction input as [|x xs IH]; intros h counter rest Hrun Hc.
  - cbn [wait_start]. split; [discriminate|].
    intros (p & Hp & Hend & _). symmetry in Hp. apply app_eq_nil in Hp as [-> _].
    rewrite app_nil_r in Hend. apply ends_with_start_trailing in Hend. lia.
  - assert (Hh : ~ ends_with_start h) by (rewrite ends_with_start_trailing; lia).
    rewrite <- (first_start_shift h x xs rest Hh).
    cbn [wait_start]. rewrite start_step_band.
    pose proof (trailing_snoc h x) as Hsnoc.
    destruct (in_start_band x) eqn:Hx.
    + unfold u8. rewrite Z.mod_small by lia.
      destruct (Z.eqb_spec (counter - 1) 0) as [H0 | Hn0].
      * (* the fourth in-band measurement in a row *)
        assert (Hend : ends_with_start (h ++ [x])).
        { rewrite ends_with_start_trailing. lia. }
        split.
        -- intros [= <-]. exists []. repeat split.
           ++ now rewrite app_nil_r.
           ++ intros q r Hq Hr. symmetry in Hq.
              apply app_eq_nil in Hq as [_ ->]. now elim Hr.
        -- intros (p & -> & _ & Hmin). destruct p as [|y p]; [reflexivity|].
           exfalso. apply (Hmin [] (y :: p) eq_refl); [discriminate|].
           now rewrite app_nil_r.
      * apply IH; lia.
    + change (4 =? 0) with false. cbn iota. apply IH; lia.
Qed.

Lemma wait_start_first (input rest : list sample) :
  wait_start Receiver.RF_START input = Synced rest <->
  exists p, input = p ++ rest /\ first_start p.
Proof. apply (wait_start_history input []); [cbn; lia | reflexivity]. Qed.

(** Without a start-sync in the input the loop is never left. *)
Lemma wait_start_no_start (input : list sample) :
  no_start input -> exists counter, wait_start Receiver.RF_START input = AwaitStart counter.
Proof.
  intros Hno. destruct (wait_start Receiver.RF_START input) as [rest | counter] eqn:Hw.
  - apply wait_start_first in Hw as (p & -> & Hend & _).
    now elim (Hno p rest eq_refl).
  - now exists counter.
Qed.

Lemma app_same_length (a : list sample) :
  forall b c d, a ++ b = c ++ d -> length a = length c -> a = c.
Proof.
  induction a as [|x a IH]; intros b [|y c] d H Hlen; try discriminate; [reflexivity|].
  cbn [app] in H. injection H as -> H. f_equal.
  apply (IH b c d H). now injection Hlen.
Qed.

Lemma prefix_prefix (s : stream) (n : nat) (q r : list sample) :
  prefix s n = q ++ r -> q = prefix s (length q).
Proof.
  intros H. assert (Hn : n = (length q + length r)%nat).
  { apply (f_equal (@length sample)) in H.
    unfold prefix in H. now rewrite length_map, length_seq, length_app in H. }
  subst n. unfold prefix in *. rewrite seq_app, map_app in H.
  symmetry in H. apply (app_same_length _ _ _ _ H).
  now rewrite length_map, length_seq.
Qed.

Lemma never_synced_no_start (s : stream) (n : nat) :
  never_synced s -> no_start (prefix s n).
Proof.
  intros Hs q r Hq. rewrite (prefix_prefix s n q r Hq). apply Hs.
Qed.

End SyncFacts.

(** ** What the receiver measures of a telegram *)

Module LinkFacts.
Import Transmitter Receiver Link Protocol BitFacts ReceiverFacts.

Lemma bursts_off (gap : Z) (w : list segment) : bursts ((false, gap) :: w) = bursts w.
Proof.
  unfold bursts. cbn [normalize].
  destruct (normalize w) as [|[[] us] rest]; reflexivity.
Qed.

Lemma bursts_on_off (on off : Z) (w : list segment) :
  bursts ((true, on) :: (false, off) :: w) = on :: bursts w.
Proof.
  unfold bursts. cbn [normalize].
  destruct (normalize w) as [|[[] us] rest]; reflexivity.
Qed.

Lemma bursts_pulse (width : Z) (w : list segment) :
  bursts (pulse width ++ w) = width :: bursts w.
Proof. apply bursts_on_off. Qed.

Lemma bursts_pulses (width : Z) (n : nat) (w : list segment) :
  bursts (concat (repeat (pulse width) n) ++ w) = repeat width n ++ bursts w.
Proof.
  induction n as [|n IH]; [reflexivity|].
  cbn [repeat concat]. rewrite <- app_assoc, bursts_pulse, IH. reflexivity.
Qed.

Lemma bursts_bits (bs : list bool) (w : list segment) :
  bursts (flat_map (fun b => pulse (bit_width b)) bs ++ w) =
  map bit_width bs ++ bursts w.
Proof.
  induction bs as [|b bs IH]; [reflexivity|].
  cbn [flat_map map]. rewrite <- app_assoc, bursts_pulse, IH. reflexivity.
Qed.

Lemma bursts_frame (address command : Z) (w : list segment) :
  bursts (frame address command ++ w) = frame_bursts address command ++ bursts w.
Proof.
  unfold frame, frame_bursts, start_pulses, data_pulses, byte_pulses.
  rewrite <- !app_assoc, bursts_pulses, !bursts_bits.
  cbn [app]. rewrite bursts_off, !map_app, <- !app_assoc.
  reflexivity.
Qed.

Lemma bursts_telegram (address command : Z) :
  bursts (telegram address command) =
  repeat bit0Width preambleBitCount ++
  frame_bursts address command ++
  bursts (concat (repeat (frame address command) 2)).
Proof.
  unfold telegram, preamble, repeatCount.
  rewrite bursts_pulses.
  cbn [repeat concat]. now rewrite bursts_frame.
Qed.

End LinkFacts.

(** ** One call of [loop] on a frame *)

Module DecodeFacts.
Import Receiver Link Protocol BitFacts ReceiverFacts.

(** A preamble bit is too short for a start bit: the counter stays at 4. *)
Lemma wait_start_preamble (n : nat) (l : list sample) :
  wait_start 4 (map Pulse (repeat bit0Width n) ++ l) = wait_start 4 l.
Proof. induction n as [|n IH]; [reflexivity | exact IH]. Qed.

Lemma wait_start_start_bits (l : list sample) :
  wait_start 4 (map Pulse (repeat startWidth startBitCount) ++ l) = Synced l.
Proof. reflexivity. Qed.

Lemma width_is_bit (bs : list bool) :
  forallb is_bit (map Pulse (map bit_width bs)) = true.
Proof. induction bs as [|[] bs IH]; [reflexivity | exact IH | exact IH]. Qed.

Lemma width_bit_value (bs : list bool) :
  map bit_value (map Pulse (map bit_width bs)) = bs.
Proof. induction bs as [|[] bs IH]; cbn [map]; [reflexivity | | ]; now rewrite IH. Qed.

(** 24 measurements in the bit band: the sketch prints the three bytes and
    whether the third is the complement of the second. *)
Lemma loop_synced_bits (input xs rest : list sample) :
  wait_start Receiver.RF_START input = Synced (xs ++ rest) ->
  length xs = 24%nat ->
  forallb is_bit xs = true ->
  let bs := map bit_value xs in
  loop input =
  Returned (frame_lines (byte_at 0 bs) (byte_at 1 bs) (byte_at 2 bs)
              (byte_at 2 bs =? complement (byte_at 1 bs))) rest.
Proof.
  intros Hsync Hlen Hall bs. unfold loop. rewrite Hsync.
  rewrite read_bits_accepted, Hlen by (rewrite ?Hlen; cbn; first [assumption | lia]).
  cbn [Nat.sub read_bits]. fold bs.
  destruct (three_bytes bs) as (Hdata & Ha & Hc & Hi).
  { unfold bs. now rewrite length_map. }
  rewrite Hdata. now rewrite check_reading_frame.
Qed.

(** Fewer than 24 measurements in the bit band and then one outside it:
    the sketch prints that the reading is incomplete, and nothing else. *)
Lemma loop_synced_break (input xs : list sample) (x : sample) (rest : list sample) :
  wait_start Receiver.RF_START input = Synced (xs ++ x :: rest) ->
  (length xs < 24)%nat ->
  forallb is_bit xs = true ->
  is_bit x = false ->
  loop input = Returned incomplete_lines rest.
Proof.
  intros Hsync Hlen Hall Hx. unfold loop. rewrite Hsync.
  assert (Hpow : 2 ^ Z.of_nat (length xs) <= 2 ^ 23) by (apply Z.pow_le_mono_r; lia).
  assert (Hpos : 0 < 2 ^ Z.of_nat (length xs)) by (apply Z.pow_pos_nonneg; lia).
  change (2 ^ 23) with 8388608 in Hpow.
  rewrite read_bits_accepted by (first [assumption | lia]).
  pose proof (shift_in_range (map bit_value xs)) as Hr.
  rewrite (shift_in_lin (map bit_value xs) 1), length_map in *.
  replace (24 - length xs)%nat with (S (23 - length xs)) by lia.
  rewrite read_bits_break by (first [assumption | lia]).
  now rewrite check_reading_incomplete by lia.
Qed.

Lemma loop_frame (n : nat) (a c i : Z) (rest : list sample) :
  0 <= a < 256 -> 0 <= c < 256 -> 0 <= i < 256 ->
  loop (map Pulse (repeat bit0Width n) ++
        map Pulse (repeat startWidth startBitCount) ++
        map Pulse (map bit_width (byte_bits a ++ byte_bits c ++ byte_bits i)) ++ rest) =
  Returned (frame_lines a c i (i =? complement c)) rest.
Proof.
  intros Ha Hc Hi.
  set (bs := byte_bits a ++ byte_bits c ++ byte_bits i).
  rewrite (loop_synced_bits _ (map Pulse (map bit_width bs)) rest).
  - rewrite width_bit_value. unfold byte_at, bs.
    change (skipn (8 * 0) ?l) with l.
    change (firstn 8 (byte_bits a ++ byte_bits c ++ byte_bits i)) with (byte_bits a).
    change (firstn 8 (skipn (8 * 1) (byte_bits a ++ byte_bits c ++ byte_bits i)))
      with (byte_bits c).
    change (firstn 8 (skipn (8 * 2) (byte_bits a ++ byte_bits c ++ byte_bits i)))
      with (byte_bits i).
    now rewrite !shift_in_byte.
  - change Receiver.RF_START with 4.
    now rewrite wait_start_preamble, wait_start_start_bits.
  - now rewrite !length_map.
  - apply width_is_bit.
Qed.

End DecodeFacts.

(** * The properties of the specification *)

Import Transmitter Receiver Link Protocol.
Import PulseFacts TelegramFacts BitFacts ReceiverFacts SyncFacts LinkFacts DecodeFacts.

(** ** Round trip *)

(** What [sendCode c] emits from the idle state is the telegram of [c]. *)
Ltac sent_from_idle Hc :=
  rewrite sendCode_wave by exact Hc;
  match goal with
  | |- context [wave idle ++ telegram ADDR ?c] =>
      change (wave idle ++ telegram ADDR c) with (telegram ADDR c)
  end.


(** The first call of [loop] on a telegram skips the preamble and decodes
    the first repetition. *)
Lemma received_telegram (c : Z) :
  0 <= c < 256 ->
  loop (received (wave (sendCode c idle))) =
  Returned (frame_lines 0x55 c (complement c) true)
           (received (concat (repeat (frame ADDR c) 2))).
Proof.
  intros Hc. sent_from_idle Hc.
  unfold received. rewrite bursts_telegram. unfold frame_bursts.
  remember (byte_bits ADDR ++ byte_bits c ++ byte_bits (complement c)) as bs eqn:Hbs.
  rewrite !map_app, <- !app_assoc. subst bs.
  assert (Hi : 0 <= complement c < 256) by (rewrite complement_byte; lia).
  rewrite loop_frame by (first [exact Hc | exact Hi | unfold ADDR; lia]).
  now rewrite Z.eqb_refl.
Qed.

(** C1: for every command byte [c], what [sendCode c] emits, measured burst
    by burst without jitter and given to one call of [loop], is printed as a
    telegram with address 0x55, command [c], inverse the complement of [c],
    and the line that the reading is valid. The two repetitions that follow
    are left unread. *)
Theorem round_trip (c : Z) :
  0 <= c < 256 ->
  loop (received (wave (sendCode c idle))) =
  Returned (frame_lines 0x55 c (complement c) true)
           (received (concat (repeat (frame ADDR c) 2))).
Proof. exact (received_telegram c). Qed.

Lemma round_trip_witness :
  0 <= CMD3 < 256 /\
  loop (received (wave (sendCode CMD3 idle))) =
  Returned (frame_lines 0x55 CMD3 (complement CMD3) true)
           (received (concat (repeat (frame ADDR CMD3) 2))).
Proof.
  assert (H : 0 <= CMD3 < 256) by (unfold CMD3; lia).
  split; [exact H | exact (round_trip CMD3 H)].
Defined.

(** ** The inverse check *)

(** C2: when the bit loop has collected all 24 bits, [loop] prints a
    telegram with the three bytes read, and the last line says the reading
    is valid exactly when the third byte is the bitwise complement (mod 256)
    of the second; a third byte that is not the complement is printed with
    the line that the reading is invalid. *)
Theorem inverse_check (input xs rest : list sample) :
  wait_start Receiver.RF_START input = Synced (xs ++ rest) ->
  length xs = 24%nat ->
  forallb is_bit xs = true ->
  let bs := map bit_value xs in
  let address := byte_at 0 bs in
  let command := byte_at 1 bs in
  let inverse := byte_at 2 bs in
  exists valid,
    loop input = Returned (frame_lines address command inverse valid) rest /\
    (valid = true <-> inverse = u8 (Z.lnot command)) /\
    (inverse <> u8 (Z.lnot command) -> valid = false).
Proof.
  intros Hsync Hlen Hall bs address command inverse.
  exists (inverse =? complement command).
  destruct (three_bytes bs) as (_ & _ & Hc & _).
  { unfold bs. now rewrite length_map. }
  fold command in Hc.
  assert (Hnot : u8 (Z.lnot command) = complement command).
  { rewrite inverse_byte. unfold u8. now rewrite Z.mod_small. }
  rewrite Hnot. split; [|split].
  - exact (loop_synced_bits input xs rest Hsync Hlen Hall).
  - apply Z.eqb_eq.
  - apply Z.eqb_neq.
Qed.

Lemma inverse_check_witness :
  let xs := map Pulse (map bit_width (byte_bits 0x55 ++ byte_bits 0x01 ++ byte_bits 0x01)) in
  let input := map Pulse (repeat startWidth 4) ++ xs in
  exists valid,
    loop input = Returned (frame_lines 0x55 0x01 0x01 valid) [] /\
    (valid = true <-> 0x01 = u8 (Z.lnot 0x01)) /\
    (0x01 <> u8 (Z.lnot 0x01) -> valid = false).
Proof.
  intros xs input.
  exact (inverse_check input xs [] eq_refl eq_refl eq_refl).
Defined.

(** ** Classification of a bit *)

(** C4: in the bit loop a duration below [RF_ERR] or above [5 * RF_ERR]
    leaves the loop; any other duration shifts in a 1 when it is above
    [3 * RF_ERR] and a 0 otherwise. At the boundaries: 150 and 450 give a 0,
    451 and 750 give a 1, 149 and 751 leave the loop. *)
Theorem bit_classification (d data : Z) :
  0 <= d < 65536 ->
  0 <= data < 2147483648 ->
  (d < Receiver.RF_ERR \/ 5 * Receiver.RF_ERR < d -> read_bit data (Pulse d) = Break) /\
  (Receiver.RF_ERR <= d <= 5 * Receiver.RF_ERR ->
   read_bit data (Pulse d) =
   Next (if 3 * Receiver.RF_ERR <? d then 2 * data + 1 else 2 * data)) /\
  read_bit data (Pulse 149) = Break /\
  read_bit data (Pulse 150) = Next (2 * data) /\
  read_bit data (Pulse 450) = Next (2 * data) /\
  read_bit data (Pulse 451) = Next (2 * data + 1) /\
  read_bit data (Pulse 750) = Next (2 * data + 1) /\
  read_bit data (Pulse 751) = Break.
Proof.
  intros Hd Hdata.
  assert (Hm : measured (Pulse d) = d) by (cbn; now rewrite Z.mod_small).
  split; [|split].
  - intros Hout. rewrite read_bit_band by exact Hdata.
    unfold is_bit. rewrite Hm. change Receiver.RF_ERR with ERR in Hout.
    destruct (Z.leb_spec ERR d), (Z.leb_spec d (5 * ERR)); cbn [andb];
      try reflexivity; lia.
  - intros Hin. rewrite read_bit_band by exact Hdata.
    unfold is_bit, bit_value. rewrite Hm. change Receiver.RF_ERR with ERR in *.
    destruct (Z.leb_spec ERR d), (Z.leb_spec d (5 * ERR)); cbn [andb]; try lia.
    destruct (3 * ERR <? d); [reflexivity | now rewrite Z.add_0_r].
  - repeat split; rewrite read_bit_band by exact Hdata;
      match goal with
      | |- context [is_bit ?x] =>
          let b := eval vm_compute in (is_bit x) in
          let v := eval vm_compute in (bit_value x) in
          change (is_bit x) with b; try change (bit_value x) with v
      end; cbn iota; rewrite ?Z.add_0_r; reflexivity.
Qed.

Lemma bit_classification_witness :
  (450 < Receiver.RF_ERR \/ 5 * Receiver.RF_ERR < 450 -> read_bit 1 (Pulse 450) = Break) /\
  (Receiver.RF_ERR <= 450 <= 5 * Receiver.RF_ERR ->
   read_bit 1 (Pulse 450) =
   Next (if 3 * Receiver.RF_ERR <? 450 then 2 * 1 + 1 else 2 * 1)) /\
  read_bit 1 (Pulse 149) = Break /\
  read_bit 1 (Pulse 150) = Next (2 * 1) /\
  read_bit 1 (Pulse 450) = Next (2 * 1) /\
  read_bit 1 (Pulse 451) = Next (2 * 1 + 1) /\
  read_bit 1 (Pulse 750) = Next (2 * 1 + 1) /\
  read_bit 1 (Pulse 751) = Break.
Proof.
  apply (bit_classification 450 1); lia.
Defined.

(** ** The shape of a telegram *)

(** C3: one call of [sendCode c] emits 32 zero-bit pulses and then three
    times: 4 start pulses, the address byte, the command byte [c] and its
    bitwise complement, each byte as 8 pulses from bit 7 down to bit 0 in
    the bit0 or bit1 shape, and the pause of [stopPause] with the line off. *)
Theorem sendCode_telegram (c : Z) (s : mcu) :
  0 <= c < 256 ->
  wave (sendCode c s) =
  wave s ++
  concat (repeat (pulse bit0Width) 32) ++
  concat (repeat (concat (repeat (pulse startWidth) 4) ++
                  byte_pulses 0x55 ++ byte_pulses c ++ byte_pulses (complement c) ++
                  [(false, stopHold)]) 3).
Proof.
  intros Hc. rewrite sendCode_wave by exact Hc.
  unfold telegram, preamble, frame, start_pulses, data_pulses.
  unfold preambleBitCount, repeatCount, startBitCount, ADDR.
  now rewrite <- !app_assoc.
Qed.

Lemma sendCode_telegram_witness :
  0 <= CMD1 < 256 /\
  wave (sendCode CMD1 idle) =
  wave idle ++
  concat (repeat (pulse bit0Width) 32) ++
  concat (repeat (concat (repeat (pulse startWidth) 4) ++
                  byte_pulses 0x55 ++ byte_pulses CMD1 ++ byte_pulses (complement CMD1) ++
                  [(false, stopHold)]) 3).
Proof.
  assert (H : 0 <= CMD1 < 256) by (unfold CMD1; lia).
  split; [exact H | exact (sendCode_telegram CMD1 idle H)].
Defined.

(** ** Trailing-edge compensation *)

Lemma compensated_pulse (width : Z) (w : list segment) :
  width = bit0Width \/ width = bit1Width \/ width = startWidth ->
  compensated (pulse width ++ w) = compensated w.
Proof.
  intros Hw. cbn [pulse app compensated]. rewrite Z.eqb_refl.
  replace ((width =? bit0Width) || (width =? bit1Width) || (width =? startWidth))
    with true; [reflexivity|].
  symmetry. rewrite !orb_true_iff, !Z.eqb_eq. tauto.
Qed.

Lemma compensated_pulses (width : Z) (n : nat) (w : list segment) :
  width = bit0Width \/ width = bit1Width \/ width = startWidth ->
  compensated (concat (repeat (pulse width) n) ++ w) = compensated w.
Proof.
  intros Hw. induction n as [|n IH]; [reflexivity|].
  cbn [repeat concat]. now rewrite <- app_assoc, compensated_pulse.
Qed.

Lemma compensated_byte (value : Z) (w : list segment) :
  compensated (byte_pulses value ++ w) = compensated w.
Proof.
  unfold byte_pulses. induction (byte_bits value) as [|b bs IH]; [reflexivity|].
  cbn [flat_map]. rewrite <- app_assoc, compensated_pulse; [exact IH|].
  destruct b; cbn [bit_width]; tauto.
Qed.

Lemma compensated_frames (address command : Z) (n : nat) :
  compensated (concat (repeat (frame address command) n)) = true.
Proof.
  induction n as [|n IH]; [reflexivity|].
  cbn [repeat concat]. unfold frame at 1, start_pulses, data_pulses.
  rewrite <- !app_assoc, compensated_pulses by tauto.
  rewrite !compensated_byte. exact IH.
Qed.

Lemma compensated_telegram (address command : Z) :
  compensated (telegram address command) = true.
Proof.
  unfold telegram, preamble. rewrite compensated_pulses by tauto.
  apply compensated_frames.
Qed.

(** In a compensated wave form every burst is followed by its space. *)
Lemma compensated_nth (n : nat) :
  forall w, (length w <= n)%nat -> compensated w = true ->
  forall i on, nth_error w i = Some (true, on) ->
    (on = bit0Width \/ on = bit1Width \/ on = startWidth) /\
    nth_error w (S i) = Some (false, on - compensation).
Proof.
  induction n as [|n IH]; intros w Hlen Hw i on Hi.
  - destruct w; [destruct i; discriminate | cbn in Hlen; lia].
  - destruct w as [|[[] us] w]; [destruct i; discriminate | |].
    + destruct w as [|[[] off] w]; cbn [compensated] in Hw; try discriminate.
      apply andb_true_iff in Hw as [Hw Hrest].
      apply andb_true_iff in Hw as [Hoff Hon].
      apply Z.eqb_eq in Hoff. rewrite !orb_true_iff, !Z.eqb_eq in Hon.
      destruct i as [|[|i]]; cbn [nth_error] in Hi |- *.
      * injection Hi as <-. subst off. split; [tauto | reflexivity].
      * discriminate.
      * apply (IH w); [cbn in Hlen; lia | exact Hrest | exact Hi].
    + cbn [compensated] in Hw. destruct i as [|i]; cbn [nth_error] in Hi |- *.
      * discriminate.
      * apply (IH w); [cbn in Hlen; lia | exact Hw | exact Hi].
Qed.

(** C10: each of the three pulse macros holds the line on for 6, 2 or 4
    times [RF_ERR] and then off for 5 microseconds less; and in what
    [sendCode] emits every burst is 2, 4 or 6 times [RF_ERR] long and is
    followed by a space that is exactly 5 microseconds shorter. *)
Theorem pulses_compensated :
  (forall s, wave (startPulse s) =
             wave s ++ [(true, 6 * Transmitter.RF_ERR); (false, 6 * Transmitter.RF_ERR - 5)]) /\
  (forall s, wave (bit0Pulse s) =
             wave s ++ [(true, 2 * Transmitter.RF_ERR); (false, 2 * Transmitter.RF_ERR - 5)]) /\
  (forall s, wave (bit1Pulse s) =
             wave s ++ [(true, 4 * Transmitter.RF_ERR); (false, 4 * Transmitter.RF_ERR - 5)]) /\
  (forall c i on,
      0 <= c < 256 ->
      nth_error (wave (sendCode c idle)) i = Some (true, on) ->
      (on = 2 * Transmitter.RF_ERR \/ on = 4 * Transmitter.RF_ERR \/
       on = 6 * Transmitter.RF_ERR) /\
      nth_error (wave (sendCode c idle)) (S i) = Some (false, on - 5)).
Proof.
  split; [|split; [|split]].
  - exact startPulse_wave.
  - exact bit0Pulse_wave.
  - exact bit1Pulse_wave.
  - intros c i on Hc. sent_from_idle Hc.
    apply (compensated_nth (length (telegram ADDR c))); [lia|].
    apply compensated_telegram.
Qed.

Lemma pulses_compensated_witness :
  nth_error (wave (sendCode CMD2 idle)) 64 = Some (true, 900) /\
  nth_error (wave (sendCode CMD2 idle)) 65 = Some (false, 900 - 5).
Proof.
  destruct pulses_compensated as (_ & _ & _ & H).
  assert (Hc : 0 <= CMD2 < 256) by (unfold CMD2; lia).
  split; [reflexivity|].
  exact (proj2 (H CMD2 64%nat 900 Hc eq_refl)).
Defined.

(** ** Start-sync *)

Lemma ends_with_start_in (p : list sample) :
  ends_with_start p -> exists x, In x p /\ in_start_band x = true.
Proof.
  intros (before & w & -> & Hlen & Hall).
  destruct w as [|x w]; [discriminate|].
  cbn [forallb] in Hall. apply andb_true_iff in Hall as [Hx _].
  exists x. split; [|exact Hx]. apply in_or_app. right. now left.
Qed.

Lemma out_of_band_no_start (input : list sample) :
  (forall x, In x input -> in_start_band x = false) -> no_start input.
Proof.
  intros Hout q r -> Hend.
  destruct (ends_with_start_in q Hend) as (x & Hin & Hx).
  rewrite Hout in Hx; [discriminate|]. apply in_or_app. now left.
Qed.

(** C5: the do-while loop is left exactly after the first 4 consecutive
    measurements in the band [5 * RF_ERR, 7 * RF_ERR]; a measurement outside
    the band sets the counter to 5 (4 after the decrement), whatever it
    was; and on measurements that are all outside the band the loop is
    never left. *)
Theorem start_sync_exact :
  (forall input rest,
      wait_start Receiver.RF_START input = Synced rest <->
      exists p, input = p ++ rest /\ first_start p) /\
  (forall counter x, in_start_band x = false -> start_step counter x = 5 - 1) /\
  (forall input,
      (forall x, In x input -> in_start_band x = false) ->
      exists counter, wait_start Receiver.RF_START input = AwaitStart counter).
Proof.
  split; [|split].
  - exact wait_start_first.
  - intros counter x Hx. now rewrite start_step_band, Hx.
  - intros input Hout. apply wait_start_no_start, out_of_band_no_start, Hout.
Qed.

Lemma start_sync_exact_witness :
  wait_start Receiver.RF_START
    (map Pulse [300; 900; 900; 300; 750; 900; 1050; 800; 300; 600]) =
  Synced (map Pulse [300; 600]).
Proof.
  apply (proj1 start_sync_exact).
  exists (map Pulse [300; 900; 900; 300; 750; 900; 1050; 800]).
  split; [reflexivity|]. split.
  - exists (map Pulse [300; 900; 900; 300]), (map Pulse [750; 900; 1050; 800]).
    repeat split.
  - intros q r Hq Hr Hend. apply ends_with_start_trailing in Hend.
    assert (Hlen : (length q < 8)%nat).
    { apply (f_equal (@length sample)) in Hq. rewrite length_app in Hq.
      destruct r; [now elim Hr | cbn in Hq; lia]. }
    do 8 (destruct q as [|? q]; [cbn in Hend; lia|];
          cbn [app map] in Hq; injection Hq as <- Hq).
    cbn in Hlen. lia.
Defined.

(** ** Truncated frames *)

(** C6: after start-sync, fewer than 24 measurements in the bit band
    followed by one outside it (a time-out or a noise pulse) make [loop]
    print that the reading is incomplete and nothing else: no address,
    command or inverse byte is printed. *)
Theorem truncated_reading (input xs : list sample) (x : sample) (rest : list sample) :
  wait_start Receiver.RF_START input = Synced (xs ++ x :: rest) ->
  (length xs < 24)%nat ->
  forallb is_bit xs = true ->
  is_bit x = false ->
  exists out,
    loop input = Returned out rest /\
    out = [Println "Incomplete Reading !"] /\
    forall value, ~ In (PrintlnHex value) out.
Proof.
  intros Hsync Hlen Hall Hx. exists incomplete_lines.
  split; [exact (loop_synced_break input xs x rest Hsync Hlen Hall Hx)|].
  split; [reflexivity|].
  intros value [Hin | []]. discriminate.
Qed.

Lemma truncated_reading_witness :
  let xs := map Pulse [300; 600; 300; 600; 300; 600; 300; 600; 300; 300] in
  let input := map Pulse [900; 900; 900; 900] ++ xs ++ [NoPulse; Pulse 300] in
  exists out,
    loop input = Returned out [Pulse 300] /\
    out = [Println "Incomplete Reading !"] /\
    forall value, ~ In (PrintlnHex value) out.
Proof.
  intros xs input.
  refine (truncated_reading input xs NoPulse [Pulse 300] eq_refl _ eq_refl eq_refl).
  cbn. lia.
Defined.

(** ** Time-outs while reading bits *)

(** C9: a measurement that timed out gives the duration 0, which is below
    [RF_ERR]; the bit loop leaves without shifting a bit in, as it does on
    any pulse shorter than [RF_ERR]; and when this happens after start-sync
    and fewer than 24 bits, [loop] prints that the reading is incomplete. *)
Theorem timeout_aborts :
  (forall timeout, pulseIn timeout NoPulse = 0) /\
  0 < Receiver.RF_ERR /\
  (forall data, read_bit data NoPulse = Break) /\
  (forall data d, 0 <= d < Receiver.RF_ERR ->
                  read_bit data (Pulse d) = read_bit data NoPulse) /\
  (forall i data rest, read_bits (S i) data (NoPulse :: rest) = Read data rest) /\
  (forall input xs rest,
      wait_start Receiver.RF_START input = Synced (xs ++ NoPulse :: rest) ->
      (length xs < 24)%nat ->
      forallb is_bit xs = true ->
      loop input = Returned [Println "Incomplete Reading !"] rest).
Proof.
  repeat split.
  - intros data d Hd. unfold read_bit. cbn [pulseIn].
    change Receiver.RF_ERR with 150 in *.
    unfold u16. rewrite Z.mod_small by lia.
    destruct (Z.ltb_spec d 150); [reflexivity | lia].
  - intros input xs rest Hsync Hlen Hall.
    exact (loop_synced_break input xs NoPulse rest Hsync Hlen Hall eq_refl).
Qed.

Lemma timeout_aborts_witness :
  loop (map Pulse [900; 900; 900; 900; 600; 300; 600] ++ [NoPulse; Pulse 600]) =
  Returned [Println "Incomplete Reading !"] [Pulse 600].
Proof.
  destruct timeout_aborts as (_ & _ & _ & _ & _ & H).
  refine (H (map Pulse [900; 900; 900; 900; 600; 300; 600] ++ [NoPulse; Pulse 600])
            (map Pulse [600; 300; 600]) [Pulse 600] eq_refl _ eq_refl).
  cbn. lia.
Defined.

(** ** No start-sync *)

Lemma loop_no_start (input : list sample) :
  no_start input -> exists counter, loop input = StuckAwaitingStart counter.
Proof.
  intros Hno. destruct (wait_start_no_start input Hno) as [counter Hw].
  exists counter. unfold loop. now rewrite Hw.
Qed.

Lemma never_synced_blocks (s : stream) :
  never_synced s ->
  ~ returns s /\ forall n, exists counter, loop (prefix s n) = StuckAwaitingStart counter.
Proof.
  intros Hs.
  assert (Hstuck : forall n, exists counter, loop (prefix s n) = StuckAwaitingStart counter).
  { intros n. apply loop_no_start, never_synced_no_start, Hs. }
  split; [|exact Hstuck].
  intros (n & out & rest & Hret). destruct (Hstuck n) as [counter Hn].
  rewrite Hn in Hret. discriminate.
Qed.

Lemma never_synced_silence : never_synced silence.
Proof.
  intros n Hend. destruct (ends_with_start_in _ Hend) as (x & Hin & Hx).
  unfold prefix in Hin. apply in_map_iff in Hin as (k & <- & _). discriminate.
Qed.

(** C7, as the sketch behaves: when start-sync is never achieved, a call of
    [loop] does not return and prints nothing; after any number of
    measurements it is still in the do-while loop that waits for the start
    bits. The sketch has no attempt budget and no report of a missing
    start. *)
Theorem no_start_never_returns (s : stream) :
  never_synced s ->
  ~ returns s /\ forall n, exists counter, loop (prefix s n) = StuckAwaitingStart counter.
Proof. exact (never_synced_blocks s). Qed.

Lemma no_start_never_returns_witness :
  ~ returns silence /\
  forall n, exists counter, loop (prefix silence n) = StuckAwaitingStart counter.
Proof. exact (no_start_never_returns silence never_synced_silence). Defined.

(** C7 fails as stated: with a receiver that hears nothing start-sync is
    never achieved, and no call of [loop] returns, whatever the number of
    measurements it is given. *)
Lemma silence_never_returns : never_synced silence /\ ~ returns silence.
Proof.
  split; [exact never_synced_silence|].
  exact (proj1 (never_synced_blocks silence never_synced_silence)).
Qed.

(** ** The stop gap *)

Lemma stop_gaps_checked :
  forallb
    (fun c =>
       forallb
         (fun k =>
            match gap_after (final_bit k) (normalize (telegram ADDR c)) with
            | Some gap => gap =? (if Z.odd c then 1195 else 1495)
            | None => false
            end)
         [0; 1; 2]%nat)
    bytes = true.
Proof. vm_compute. reflexivity. Qed.

(** X13: counted in the delays the firmware programs, the line is held
    off after the burst of the last data bit of every repetition for the
    compensated space of that bit and the pause of [stopPause]: 8 * RF_ERR - 5
    microseconds when the command is odd (the last bit sent is 0) and
    10 * RF_ERR - 5 when it is even. The 5 microseconds left to 8 * RF_ERR
    are the time of the instructions in between, which the wave form does
    not count. *)
Theorem stop_gap_programmed (c : Z) (k : nat) :
  0 <= c < 256 ->
  (k < 3)%nat ->
  exists gap,
    gap_after (final_bit k) (normalize (wave (sendCode c idle))) = Some gap /\
    gap = (if Z.odd c then 2 * Transmitter.RF_ERR - 5 + 6 * Transmitter.RF_ERR
           else 4 * Transmitter.RF_ERR - 5 + 6 * Transmitter.RF_ERR) /\
    8 * Transmitter.RF_ERR - 5 <= gap.
Proof.
  intros Hc Hk. sent_from_idle Hc.
  pose proof (forall_bytes _ stop_gaps_checked c Hc) as Hall.
  rewrite forallb_forall in Hall. specialize (Hall k).
  destruct (gap_after (final_bit k) (normalize (telegram ADDR c))) as [gap|].
  - exists gap. split; [reflexivity|].
    assert (Hin : In k [0; 1; 2]%nat) by (cbn; lia).
    apply Hall, Z.eqb_eq in Hin. subst gap.
    change Transmitter.RF_ERR with 150. destruct (Z.odd c); split; lia.
  - assert (Hin : In k [0; 1; 2]%nat) by (cbn; lia).
    apply Hall in Hin. discriminate.
Qed.

Lemma stop_gap_programmed_witness :
  exists gap,
    gap_after (final_bit 1) (normalize (wave (sendCode CMD2 idle))) = Some gap /\
    gap = (if Z.odd CMD2 then 2 * Transmitter.RF_ERR - 5 + 6 * Transmitter.RF_ERR
           else 4 * Transmitter.RF_ERR - 5 + 6 * Transmitter.RF_ERR) /\
    8 * Transmitter.RF_ERR - 5 <= gap.
Proof.
  apply (stop_gap_programmed CMD2 1); [unfold CMD2; lia | lia].
Defined.

(** ** Preamble *)

(** X1: any number of zero-bit pulses before the start bits, none included,
    leaves the decoding of the frame that follows unchanged. *)
Theorem preamble_tolerance (n : nat) (a c i : Z) (rest : list sample) :
  0 <= a < 256 -> 0 <= c < 256 -> 0 <= i < 256 ->
  loop (map Pulse (repeat bit0Width n) ++
        map Pulse (repeat startWidth startBitCount) ++
        map Pulse (map bit_width (byte_bits a ++ byte_bits c ++ byte_bits i)) ++ rest) =
  Returned (frame_lines a c i (i =? complement c)) rest.
Proof. exact (loop_frame n a c i rest). Qed.

Lemma preamble_tolerance_witness :
  loop (map Pulse (repeat bit0Width 0) ++
        map Pulse (repeat startWidth startBitCount) ++
        map Pulse (map bit_width (byte_bits 0x55 ++ byte_bits 4 ++ byte_bits 251)) ++ []) =
  Returned (frame_lines 0x55 4 251 (251 =? complement 4)) [].
Proof. apply (preamble_tolerance 0 0x55 4 251 []); lia. Defined.

(** * Further properties of the two programs *)

Import Usage.

(** ** The keys *)

Lemma main_pass_selected (PINB : Z) (s : mcu) :
  main_pass PINB s =
  match selected PINB with
  | Some cmd => sendCode cmd s
  | None => s
  end.
Proof.
  unfold main_pass, selected.
  repeat match goal with
         | |- context [if ?b then _ else _] => destruct b; [reflexivity|]
         end.
  reflexivity.
Qed.

Lemma same_choice_eq (a b : option Z) : same_choice a b = true -> a = b.
Proof.
  destruct a as [x|], b as [y|]; cbn; try discriminate; [|reflexivity].
  intros H. apply Z.eqb_eq in H. now subst.
Qed.

Lemma selected_single_key (PINB : Z) :
  0 <= PINB < 256 -> selected PINB = single_key PINB.
Proof.
  intros H. apply same_choice_eq.
  apply (forall_bytes (fun p => same_choice (selected p) (single_key p)));
    [vm_compute; reflexivity | exact H].
Qed.

Lemma main_pass_keys (PINB : Z) (s : mcu) :
  0 <= PINB < 256 ->
  main_pass PINB s =
  match pressed_keys PINB with
  | [key] => sendCode (command_of key) s
  | _ => s
  end.
Proof.
  intros H. rewrite main_pass_selected, (selected_single_key PINB H).
  unfold single_key. now destruct (pressed_keys PINB) as [|key [|key' l]].
Qed.

(** X3: one pass of the main loop sends the command of a key exactly when
    that key is the only one of the five that is down; with no key down or
    with several down at once nothing is sent. The pins that are not key
    pins do not matter. *)
Theorem one_key_one_command (PINB : Z) (s : mcu) :
  0 <= PINB < 256 ->
  main_pass PINB s =
  match pressed_keys PINB with
  | [key] => sendCode (command_of key) s
  | _ => s
  end.
Proof. exact (main_pass_keys PINB s). Qed.

Lemma one_key_one_command_witness :
  main_pass 0xF3 idle = idle /\ main_pass 0xF7 idle = sendCode CMD3 idle.
Proof.
  split.
  - refine (one_key_one_command 0xF3 idle _). lia.
  - refine (one_key_one_command 0xF7 idle _). lia.
Defined.

(** ** The output register *)

Lemma pulse_portb (on off : Z) (s : mcu) :
  0 <= PORTB s < 256 ->
  PORTB (_delay_us off (RF_off (_delay_us on (RF_on s)))) = data_low (PORTB s).
Proof.
  intros H. cbn [_delay_us RF_off RF_on PORTB]. apply Z.eqb_eq.
  apply (forall_bytes
           (fun p => u8 (Z.land (u8 (Z.lor p (Z.shiftl 1 DATA))) (Z.lnot (Z.shiftl 1 DATA)))
                     =? data_low p)); [vm_compute; reflexivity | exact H].
Qed.

Lemma data_low_range (p : Z) : 0 <= p < 256 -> 0 <= data_low p < 256.
Proof.
  intros H.
  assert (Hb : (0 <=? data_low p) && (data_low p <? 256) = true).
  { apply (forall_bytes (fun p => (0 <=? data_low p) && (data_low p <? 256)));
      [vm_compute; reflexivity | exact H]. }
  apply andb_true_iff in Hb as [H1 H2]. lia.
Qed.

Lemma data_low_twice (p : Z) : 0 <= p < 256 -> data_low (data_low p) = data_low p.
Proof.
  intros H. apply Z.eqb_eq.
  apply (forall_bytes (fun p => data_low (data_low p) =? data_low p));
    [vm_compute; reflexivity | exact H].
Qed.

Lemma pulse_holds (p on off : Z) (s : mcu) :
  0 <= p < 256 -> holds p s ->
  PORTB (_delay_us off (RF_off (_delay_us on (RF_on s)))) = data_low p.
Proof.
  intros Hp [H | H].
  - rewrite pulse_portb by (rewrite H; exact Hp). now rewrite H.
  - rewrite pulse_portb by (rewrite H; now apply data_low_range).
    rewrite H. now apply data_low_twice.
Qed.

Lemma start_holds (p : Z) (s : mcu) :
  0 <= p < 256 -> holds p s -> PORTB (startPulse s) = data_low p.
Proof. apply pulse_holds. Qed.

Lemma bit_holds (p : Z) (b : bool) (s : mcu) :
  0 <= p < 256 -> holds p s ->
  PORTB (if b then bit1Pulse s else bit0Pulse s) = data_low p.
Proof. destruct b; apply pulse_holds. Qed.

Lemma iter_holds (p : Z) (body : mcu -> mcu) :
  (forall s, holds p s -> PORTB (body s) = data_low p) ->
  forall n s, holds p s -> holds p (Nat.iter n body s).
Proof.
  intros Hbody n s Hs. destruct n as [|n]; [exact Hs|].
  right. cbn [Nat.iter]. apply Hbody.
  clear -Hbody Hs. induction n as [|n IH]; [exact Hs|].
  right. cbn [Nat.iter]. now apply Hbody.
Qed.

Lemma iter_clears (p : Z) (body : mcu -> mcu) :
  (forall s, holds p s -> PORTB (body s) = data_low p) ->
  forall n s, holds p s -> PORTB (Nat.iter (S n) body s) = data_low p.
Proof.
  intros Hbody n s Hs. cbn [Nat.iter]. apply Hbody. now apply iter_holds.
Qed.

Lemma sendByte_loop_holds (p : Z) (i : nat) :
  0 <= p < 256 ->
  forall value s, PORTB s = data_low p -> PORTB (sendByte_loop i value s) = data_low p.
Proof.
  intros Hp. induction i as [|i IH]; intros value s Hs; [exact Hs|].
  rewrite sendByte_step. apply IH, bit_holds; [exact Hp | now right].
Qed.

Lemma sendFrame_holds (p cmd : Z) (s : mcu) :
  0 <= p < 256 -> holds p s -> PORTB (sendFrame cmd s) = data_low p.
Proof.
  intros Hp Hs. unfold sendFrame, stopPause, _delay_us, sendByte. cbn [PORTB].
  do 3 apply (sendByte_loop_holds p 8 Hp).
  unfold count_down. change (Z.to_nat Transmitter.RF_START) with 4%nat.
  apply iter_clears; [|exact Hs]. intros s' Hs'. now apply start_holds.
Qed.

Lemma sendCode_portb (cmd : Z) (s : mcu) :
  0 <= PORTB s < 256 -> PORTB (sendCode cmd s) = data_low (PORTB s).
Proof.
  intros Hp. unfold sendCode, count_down.
  change (Z.to_nat RF_REP) with 3%nat.
  apply iter_clears.
  - intros s' Hs'. now apply sendFrame_holds.
  - apply iter_holds; [|now left].
    intros s' Hs'. now apply (bit_holds (PORTB s) false).
Qed.

(** X4: [sendCode] changes nothing in the output register but the DATA
    bit, which it leaves cleared; so the pull-ups of the key pins stay on,
    and every pass of the main loop ends with the register as [main] set it
    up and the transmitter keyed off. *)
Theorem pull_ups_kept :
  (forall cmd s, 0 <= PORTB s < 256 ->
                 PORTB (sendCode cmd s) = data_low (PORTB s) /\
                 Z.testbit (PORTB (sendCode cmd s)) DATA = false /\
                 forall pin, 0 < pin ->
                             Z.testbit (PORTB (sendCode cmd s)) pin = Z.testbit (PORTB s) pin) /\
  (forall PINB s, PORTB s = BT_MASK -> PORTB (main_pass PINB s) = BT_MASK).
Proof.
  split.
  - intros cmd s Hp. rewrite sendCode_portb by exact Hp. split; [reflexivity|].
    unfold data_low, DATA. split.
    + rewrite Z.land_spec. cbn. apply andb_false_r.
    + intros pin Hpin. rewrite Z.land_spec.
      replace (Z.testbit (Z.lnot (Z.shiftl 1 0)) pin) with true; [apply andb_true_r|].
      change (Z.shiftl 1 0) with 1. rewrite Z.lnot_spec by lia.
      destruct pin; try lia. reflexivity.
  - intros PINB s Hs. rewrite main_pass_selected.
    destruct (selected PINB); [|exact Hs].
    rewrite sendCode_portb, Hs by (rewrite Hs; cbv; split; [discriminate | reflexivity]).
    reflexivity.
Qed.

Lemma pull_ups_kept_witness :
  PORTB (sendCode CMD4 (MCU 0xFF [])) = data_low 0xFF /\
  Z.testbit (PORTB (sendCode CMD4 (MCU 0xFF []))) DATA = false /\
  forall pin, 0 < pin ->
              Z.testbit (PORTB (sendCode CMD4 (MCU 0xFF []))) pin = Z.testbit 0xFF pin.
Proof.
  refine (proj1 pull_ups_kept CMD4 (MCU 0xFF []) _). cbn [PORTB]. lia.
Defined.

(** ** Air time *)

Lemma air_time_app (u v : list segment) : air_time (u ++ v) = air_time u + air_time v.
Proof.
  induction u as [|x u IH]; [reflexivity|].
  cbn [app air_time fold_right]. fold (air_time (u ++ v)) (air_time u). lia.
Qed.

Lemma on_time_app (u v : list segment) : on_time (u ++ v) = on_time u + on_time v.
Proof.
  induction u as [|x u IH]; [reflexivity|].
  cbn [app on_time fold_right]. fold (on_time (u ++ v)) (on_time u). lia.
Qed.

Lemma telegram_times :
  forallb
    (fun c => (air_time (telegram ADDR c) =? 107720)
              && (on_time (telegram ADDR c) =? 52800)
              && (length (bursts (telegram ADDR c)) =? 116)%nat)
    bytes = true.
Proof. vm_compute. reflexivity. Qed.

(** X5: whatever the command, a telegram holds the line for 107720
    microseconds in all, 52800 of them on, and has 116 bursts: the command
    byte and its inverse together always have eight 1 bits and eight 0
    bits. *)
Theorem telegram_air_time (c : Z) (s : mcu) :
  0 <= c < 256 ->
  air_time (wave (sendCode c s)) = air_time (wave s) + 107720 /\
  on_time (wave (sendCode c s)) = on_time (wave s) + 52800 /\
  length (bursts (wave (sendCode c idle))) = 116%nat.
Proof.
  intros Hc.
  pose proof (forall_bytes _ telegram_times c Hc) as H. cbn beta in H.
  apply andb_true_iff in H as [H Hn]. apply andb_true_iff in H as [Ha Ho].
  apply Z.eqb_eq in Ha. apply Z.eqb_eq in Ho. apply Nat.eqb_eq in Hn.
  rewrite (sendCode_wave c s Hc), (sendCode_wave c idle Hc).
  rewrite air_time_app, on_time_app.
  change (wave idle ++ telegram ADDR c) with (telegram ADDR c).
  rewrite Ha, Ho, Hn. repeat split.
Qed.

Lemma telegram_air_time_witness :
  air_time (wave (sendCode CMD5 idle)) = air_time (wave idle) + 107720 /\
  on_time (wave (sendCode CMD5 idle)) = on_time (wave idle) + 52800 /\
  length (bursts (wave (sendCode CMD5 idle))) = 116%nat.
Proof. apply (telegram_air_time CMD5 idle). unfold CMD5. lia. Defined.

(** ** From the key to the serial monitor *)

Lemma command_of_byte (key : Z) : 0 <= command_of key < 256.
Proof.
  unfold command_of.
  repeat match goal with
         | |- context [if ?b then _ else _] => destruct b
         end; cbv; split; congruence.
Qed.

(** X6: with exactly one key down, what one pass of the main loop emits
    makes the first call of [loop] print a valid telegram with address
    0x55 and the command of that key. *)
Theorem key_press_received (PINB key : Z) :
  0 <= PINB < 256 ->
  pressed_keys PINB = [key] ->
  loop (received (wave (main_pass PINB idle))) =
  Returned (frame_lines 0x55 (command_of key) (complement (command_of key)) true)
           (received (concat (repeat (frame ADDR (command_of key)) 2))).
Proof.
  intros Hp Hkey. rewrite main_pass_keys by exact Hp. rewrite Hkey.
  apply received_telegram, command_of_byte.
Qed.

Lemma key_press_received_witness :
  loop (received (wave (main_pass 0xFD idle))) =
  Returned (frame_lines 0x55 (command_of KEY1) (complement (command_of KEY1)) true)
           (received (concat (repeat (frame ADDR (command_of KEY1)) 2))).
Proof. apply (key_press_received 0xFD KEY1); [lia | reflexivity]. Defined.

(** ** When [loop] returns, and with what *)

(** However the bit loop is left, it has read a run of measurements in the
    bit band, and when it was left early, one more that is outside it. *)
Lemma read_bits_read (i : nat) :
  forall data input d rest,
    0 <= data ->
    (data + 1) * 2 ^ Z.of_nat i <= 4294967296 ->
    read_bits i data input = Read d rest ->
    exists xs,
      forallb is_bit xs = true /\
      d = shift_in data (map bit_value xs) /\
      ((input = xs ++ rest /\ length xs = i) \/
       (exists x, input = xs ++ x :: rest /\ (length xs < i)%nat /\ is_bit x = false)).
Proof.
  induction i as [|i IH]; intros data input d rest Hd Hbound Hread.
  - cbn in Hread. injection Hread as <- <-. exists []. repeat split. now left.
  - rewrite Nat2Z.inj_succ, Z.pow_succ_r in Hbound by lia.
    assert (Hp : 0 < 2 ^ Z.of_nat i) by (apply Z.pow_pos_nonneg; lia).
    destruct input as [|x input]; [discriminate|].
    cbn [read_bits] in Hread. rewrite read_bit_band in Hread by nia.
    destruct (is_bit x) eqn:Hx.
    + apply IH in Hread as (xs & Hall & Hdata & Hshape);
        [|destruct (bit_value x); lia | destruct (bit_value x); nia].
      exists (x :: xs). cbn [forallb map length app]. rewrite Hx, Hall.
      repeat split; [exact Hdata|].
      destruct Hshape as [[-> <-] | (y & -> & Hlen & Hy)].
      * now left.
      * right. exists y. repeat split; [lia | exact Hy].
    + injection Hread as <- <-. exists []. repeat split.
      right. exists x. repeat split; [cbn; lia | exact Hx].
Qed.

(** X7: [loop] returns in two ways only. It prints a telegram exactly when
    the measurements that follow the first start-sync begin with 24 in the
    bit band, and then the three bytes are those 24 bits; it prints that
    the reading is incomplete exactly when fewer than 24 in the bit band
    are followed by one outside it. In both cases it has read up to there
    and no further. *)
Theorem loop_returns (input : list sample) (out : list serial) (rest : list sample) :
  loop input = Returned out rest <->
  (exists p xs,
      input = p ++ xs ++ rest /\ first_start p /\
      length xs = 24%nat /\ forallb is_bit xs = true /\
      let bs := map bit_value xs in
      out = frame_lines (byte_at 0 bs) (byte_at 1 bs) (byte_at 2 bs)
              (byte_at 2 bs =? complement (byte_at 1 bs))) \/
  (exists p xs x,
      input = p ++ xs ++ x :: rest /\ first_start p /\
      (length xs < 24)%nat /\ forallb is_bit xs = true /\ is_bit x = false /\
      out = [Println "Incomplete Reading !"]).
Proof.
  split.
  - unfold loop. destruct (wait_start Receiver.RF_START input) as [tail|] eqn:Hsync;
      [|discriminate].
    destruct (read_bits 24 1 tail) as [d rest'|] eqn:Hread; [|discriminate].
    intros [= <- ->].
    apply wait_start_first in Hsync as (p & -> & Hp).
    pose proof Hread as Hread'.
    apply read_bits_read in Hread' as (xs & Hall & Hdata & Hshape);
      [|lia | cbn; lia].
    destruct Hshape as [[-> Hlen] | (x & -> & Hlen & Hx)].
    + left. exists p, xs.
      split; [reflexivity|]. split; [exact Hp|]. split; [exact Hlen|].
      split; [exact Hall|]. cbv zeta.
      assert (Hs : wait_start Receiver.RF_START (p ++ xs ++ rest) = Synced (xs ++ rest)).
      { apply wait_start_first. now exists p. }
      pose proof (loop_synced_bits _ xs rest Hs Hlen Hall) as Hloop.
      cbv zeta in Hloop. unfold loop in Hloop. rewrite Hs, Hread in Hloop.
      injection Hloop as Hout. exact Hout.
    + right. exists p, xs, x.
      split; [reflexivity|]. split; [exact Hp|]. split; [exact Hlen|].
      split; [exact Hall|]. split; [exact Hx|].
      assert (Hs : wait_start Receiver.RF_START (p ++ xs ++ x :: rest) =
                   Synced (xs ++ x :: rest)).
      { apply wait_start_first. now exists p. }
      pose proof (loop_synced_break _ xs x rest Hs Hlen Hall Hx) as Hloop.
      unfold loop in Hloop. rewrite Hs, Hread in Hloop.
      injection Hloop as Hout. exact Hout.
  - intros [(p & xs & -> & Hp & Hlen & Hall & ->) | (p & xs & x & -> & Hp & Hlen & Hall & Hx & ->)].
    + apply loop_synced_bits; try assumption. apply wait_start_first. now exists p.
    + apply (loop_synced_break _ xs x); try assumption.
      apply wait_start_first. now exists p.
Qed.

(** ** The bit loop ends *)

Lemma read_bits_ends (i : nat) :
  forall data input,
    (i <= length input)%nat ->
    exists d used rest,
      read_bits i data input = Read d rest /\
      input = used ++ rest /\ (length used <= i)%nat.
Proof.
  induction i as [|i IH]; intros data input Hlen.
  - exists data, [], input. now repeat split.
  - destruct input as [|x input]; [cbn in Hlen; lia|].
    cbn [read_bits]. destruct (read_bit data x) as [|data'].
    + exists data, [x], input. repeat split. cbn. lia.
    + destruct (IH data' input) as (d & used & rest & Hread & -> & Hused);
        [cbn in Hlen; lia|].
      exists d, (x :: used), rest. repeat split; [exact Hread | cbn; lia].
Qed.

(** X8: once the start bits were seen, [loop] returns after at most 24
    further measurements, whatever they are: pulses of any length or
    time-outs. *)
Theorem loop_returns_after_sync (input tail : list sample) :
  wait_start Receiver.RF_START input = Synced tail ->
  (24 <= length tail)%nat ->
  exists out used rest,
    loop input = Returned out rest /\
    tail = used ++ rest /\ (length used <= 24)%nat.
Proof.
  intros Hsync Hlen. unfold loop. rewrite Hsync.
  destruct (read_bits_ends 24 1 tail Hlen) as (d & used & rest & Hread & Htail & Hused).
  rewrite Hread. now exists (check_reading d), used, rest.
Qed.

Lemma loop_returns_after_sync_witness :
  exists out used rest,
    loop (map Pulse (repeat 900 4) ++ repeat NoPulse 24) = Returned out rest /\
    repeat NoPulse 24 = used ++ rest /\ (length used <= 24)%nat.
Proof.
  refine (loop_returns_after_sync (map Pulse (repeat 900 4) ++ repeat NoPulse 24)
            (repeat NoPulse 24) eq_refl _).
  cbn. lia.
Defined.

(** ** The start-bit counter *)

Lemma wait_start_counter (input : list sample) :
  forall h counter0 counter,
    (trailing h < 4)%nat ->
    counter0 = 4 - Z.of_nat (trailing h) ->
    wait_start counter0 input = AwaitStart counter ->
    counter = 4 - Z.of_nat (trailing (h ++ input)) /\ (trailing (h ++ input) < 4)%nat.
Proof.
  induction input as [|x xs IH]; intros h counter0 counter Hrun Hc Hw.
  - cbn in Hw. injection Hw as <-. rewrite app_nil_r. now split.
  - cbn [wait_start] in Hw. rewrite start_step_band in Hw.
    pose proof (trailing_snoc h x) as Hsnoc.
    replace (h ++ x :: xs) with ((h ++ [x]) ++ xs) by now rewrite <- app_assoc.
    destruct (in_start_band x) eqn:Hx.
    + unfold u8 in Hw. rewrite Z.mod_small in Hw by lia.
      destruct (Z.eqb_spec (counter0 - 1) 0) as [H0 | Hn0]; [discriminate|].
      apply (IH (h ++ [x]) (counter0 - 1)); [lia | lia | exact Hw].
    + change (4 =? 0) with false in Hw. cbn iota in Hw.
      apply (IH (h ++ [x]) 4); [lia | lia | exact Hw].
Qed.

(** X9: while [loop] waits for the start bits, its counter is 4 minus the
    number of measurements in the start band seen in a row just before; it
    stays between 1 and 4, so the [uint8_t] never wraps. *)
Theorem waiting_counter (input : list sample) (counter : Z) :
  wait_start Receiver.RF_START input = AwaitStart counter ->
  counter = 4 - Z.of_nat (trailing input) /\ 1 <= counter <= 4.
Proof.
  intros Hw.
  destruct (wait_start_counter input [] Receiver.RF_START counter) as [Hc Hrun];
    [cbn; lia | reflexivity | exact Hw |].
  cbn [app] in Hc, Hrun. split; [exact Hc | lia].
Qed.

Lemma waiting_counter_witness :
  2 = 4 - Z.of_nat (trailing (map Pulse [900; 300; 800; 1000])) /\ 1 <= 2 <= 4.
Proof.
  exact (waiting_counter (map Pulse [900; 300; 800; 1000]) 2 eq_refl).
Defined.

(** ** Jitter *)

Lemma close_pulse (nominal d : Z) :
  150 <= nominal <= 900 -> close nominal d -> measured (Pulse d) = d.
Proof.
  unfold close. change Receiver.RF_ERR with 150. intros Hn Hd.
  cbn [measured]. apply Z.mod_small. lia.
Qed.

Lemma close_zero (d : Z) :
  close bit0Width d ->
  in_start_band (Pulse d) = false /\ is_bit (Pulse d) = true /\ bit_value (Pulse d) = false.
Proof.
  intros Hd. unfold in_start_band, is_bit, bit_value.
  rewrite (close_pulse bit0Width d) by (first [exact Hd | cbv; split; discriminate]).
  unfold close in Hd. change Receiver.RF_ERR with 150 in Hd.
  change bit0Width with 300 in Hd. unfold ERR.
  repeat split.
  - destruct (Z.leb_spec (5 * 150) d); [lia | reflexivity].
  - destruct (Z.leb_spec 150 d), (Z.leb_spec d (5 * 150)); try reflexivity; lia.
  - destruct (Z.ltb_spec (3 * 150) d); [lia | reflexivity].
Qed.

Lemma close_one (d : Z) :
  close bit1Width d -> is_bit (Pulse d) = true /\ bit_value (Pulse d) = true.
Proof.
  intros Hd. unfold is_bit, bit_value.
  rewrite (close_pulse bit1Width d) by (first [exact Hd | cbv; split; discriminate]).
  unfold close in Hd. change Receiver.RF_ERR with 150 in Hd.
  change bit1Width with 600 in Hd. unfold ERR.
  split.
  - destruct (Z.leb_spec 150 d), (Z.leb_spec d (5 * 150)); try reflexivity; lia.
  - destruct (Z.ltb_spec (3 * 150) d); [reflexivity | lia].
Qed.

Lemma close_start (d : Z) : close startWidth d -> in_start_band (Pulse d) = true.
Proof.
  intros Hd. unfold in_start_band.
  rewrite (close_pulse startWidth d) by (first [exact Hd | cbv; split; discriminate]).
  unfold close in Hd. change Receiver.RF_ERR with 150 in Hd.
  change startWidth with 900 in Hd. unfold ERR.
  destruct (Z.leb_spec (5 * 150) d), (Z.leb_spec d (7 * 150)); try reflexivity; lia.
Qed.

Lemma jittered_preamble (n : nat) :
  forall ds l,
    Forall2 close (repeat bit0Width n) ds ->
    wait_start 4 (map Pulse ds ++ l) = wait_start 4 l.
Proof.
  induction n as [|n IH]; intros ds l Hds; inversion Hds as [|? d ? ds' Hd Hds']; subst.
  - reflexivity.
  - cbn [map app wait_start]. rewrite start_step_band.
    destruct (close_zero d Hd) as (Hband & _). rewrite Hband.
    change (4 =? 0) with false. cbn iota. now apply IH.
Qed.

Lemma jittered_start_bits (ds : list Z) (l : list sample) :
  Forall2 close (repeat startWidth startBitCount) ds ->
  wait_start 4 (map Pulse ds ++ l) = Synced l.
Proof.
  intros Hds. cbn [repeat startBitCount] in Hds.
  repeat match goal with
         | H : Forall2 close (_ :: _) _ |- _ =>
             inversion H as [|? ? ? ? ?Hd ?Hds]; subst; clear H
         | H : Forall2 close [] _ |- _ => inversion H; subst; clear H
         end.
  cbn [map app wait_start]. rewrite !start_step_band.
  repeat match goal with
         | H : close startWidth _ |- _ => apply close_start in H; rewrite H; clear H
         end.
  reflexivity.
Qed.

Lemma jittered_bits (bs : list bool) :
  forall ds,
    Forall2 close (map bit_width bs) ds ->
    forallb is_bit (map Pulse ds) = true /\
    map bit_value (map Pulse ds) = bs /\
    length ds = length bs.
Proof.
  induction bs as [|b bs IH]; intros ds Hds; inversion Hds as [|? d ? ds' Hd Hds']; subst.
  - now repeat split.
  - destruct (IH ds' Hds') as (Hall & Hval & Hlen).
    cbn [map forallb length]. rewrite Hall, Hval, Hlen.
    destruct b; cbn [bit_width] in Hd.
    + destruct (close_one d Hd) as [-> ->]. now repeat split.
    + destruct (close_zero d Hd) as (_ & -> & ->). now repeat split.
Qed.

Lemma frame_bits_bytes (a c i : Z) :
  0 <= a < 256 -> 0 <= c < 256 -> 0 <= i < 256 ->
  let bs := byte_bits a ++ byte_bits c ++ byte_bits i in
  byte_at 0 bs = a /\ byte_at 1 bs = c /\ byte_at 2 bs = i.
Proof.
  intros Ha Hc Hi bs. unfold byte_at, bs.
  change (skipn (8 * 0) ?l) with l.
  change (firstn 8 (byte_bits a ++ byte_bits c ++ byte_bits i)) with (byte_bits a).
  change (firstn 8 (skipn (8 * 1) (byte_bits a ++ byte_bits c ++ byte_bits i)))
    with (byte_bits c).
  change (firstn 8 (skipn (8 * 2) (byte_bits a ++ byte_bits c ++ byte_bits i)))
    with (byte_bits i).
  now rewrite !shift_in_byte.
Qed.

Lemma frames_bursts_length (a c : Z) (n : nat) :
  length (bursts (concat (repeat (frame a c) n))) = (28 * n)%nat.
Proof.
  induction n as [|n IH]; [reflexivity|].
  cbn [repeat concat]. rewrite bursts_frame, length_app, IH.
  unfold frame_bursts. rewrite length_app, repeat_length, length_map.
  change (length (byte_bits a ++ byte_bits c ++ byte_bits (complement c))) with 24%nat.
  unfold startBitCount. lia.
Qed.

(** X10: when every burst of a telegram is measured off its nominal length
    by less than [RF_ERR] microseconds, in either direction and from burst
    to burst as it may, the first call of [loop] still prints the valid
    telegram with the command sent, and leaves the 56 measurements of the
    other two repetitions unread. *)
Theorem jitter_tolerance (c : Z) (ds : list Z) :
  0 <= c < 256 ->
  Forall2 close (bursts (wave (sendCode c idle))) ds ->
  exists rest,
    loop (map Pulse ds) = Returned (frame_lines 0x55 c (complement c) true) rest /\
    length rest = 56%nat.
Proof.
  intros Hc Hds. rewrite (sendCode_wave c idle Hc) in Hds.
  change (wave idle ++ telegram ADDR c) with (telegram ADDR c) in Hds.
  rewrite bursts_telegram in Hds. unfold frame_bursts in Hds.
  apply Forall2_app_inv_l in Hds as (d1 & r1 & H1 & Hds & ->).
  rewrite <- app_assoc in Hds.
  apply Forall2_app_inv_l in Hds as (d2 & r2 & H2 & Hds & ->).
  apply Forall2_app_inv_l in Hds as (d3 & d4 & H3 & H4 & ->).
  destruct (jittered_bits _ _ H3) as (Hall & Hval & Hlen).
  assert (Hi : 0 <= complement c < 256) by (rewrite complement_byte; lia).
  assert (Ha : 0 <= ADDR < 256) by (unfold ADDR; lia).
  destruct (frame_bits_bytes ADDR c (complement c) Ha Hc Hi) as (Hb0 & Hb1 & Hb2).
  exists (map Pulse d4). split.
  - rewrite (loop_synced_bits _ (map Pulse d3) (map Pulse d4)).
    + rewrite Hval, Hb0, Hb1, Hb2, Z.eqb_refl. reflexivity.
    + rewrite !map_app. change Receiver.RF_START with 4.
      now rewrite (jittered_preamble _ _ _ H1), (jittered_start_bits _ _ H2).
    + now rewrite length_map, Hlen.
    + exact Hall.
  - rewrite length_map. apply Forall2_length in H4. rewrite <- H4.
    apply (frames_bursts_length ADDR c 2).
Qed.

Lemma jitter_tolerance_witness :
  exists rest,
    loop (map Pulse (map (fun d => d + 140) (bursts (wave (sendCode CMD2 idle))))) =
    Returned (frame_lines 0x55 CMD2 (complement CMD2) true) rest /\
    length rest = 56%nat.
Proof.
  apply (jitter_tolerance CMD2); [unfold CMD2; lia|].
  vm_compute. repeat constructor.
Defined.

(** The bound is sharp: with every burst measured [RF_ERR] short, all data
    bits read as 0 and the reading is invalid. *)
Lemma jitter_limit :
  loop (map Pulse (map (fun d => d - Receiver.RF_ERR) (bursts (wave (sendCode CMD2 idle))))) =
  Returned (frame_lines 0 0 0 false)
           (map Pulse (map (fun d => d - Receiver.RF_ERR)
                         (bursts (concat (repeat (frame ADDR CMD2) 2))))).
Proof. reflexivity. Qed.

(** ** A misread bit *)

Lemma flip_length (k : nat) : forall bs, length (flip k bs) = length bs.
Proof.
  induction k as [|k IH]; intros [|b bs]; cbn [flip length]; try reflexivity.
  now rewrite IH.
Qed.

Lemma misread_flags (a : Z) :
  forallb
    (fun c =>
       forallb
         (fun k =>
            Bool.eqb
              (byte_at 2 (flip k (frame_bits a c))
               =? complement (byte_at 1 (flip k (frame_bits a c))))
              (k <? 8)%nat)
         (seq 0 24))
    bytes = true.
Proof. vm_compute. reflexivity. Qed.

Lemma misread_bytes (c : Z) :
  forallb
    (fun a =>
       forallb
         (fun k =>
            (if (k <? 8)%nat
             then negb (byte_at 0 (flip k (frame_bits a c)) =? a)
             else byte_at 0 (flip k (frame_bits a c)) =? a))
         (seq 0 24))
    bytes = true.
Proof. vm_compute. reflexivity. Qed.

(** X11: when exactly one of the 24 data bits of a frame is read wrongly,
    the sketch prints the reading as invalid if the bit belongs to the
    command or to its inverse; a wrong bit of the address is not noticed:
    the telegram is printed as valid, with an address that is not the one
    sent. *)
Theorem misread_bit (a c : Z) (k : nat) (rest : list sample) :
  0 <= a < 256 -> 0 <= c < 256 -> (k < 24)%nat ->
  let bs := flip k (frame_bits a c) in
  loop (map Pulse (repeat startWidth startBitCount) ++
        map Pulse (map bit_width bs) ++ rest) =
  Returned (frame_lines (byte_at 0 bs) (byte_at 1 bs) (byte_at 2 bs) (k <? 8)%nat) rest /\
  ((k < 8)%nat <-> byte_at 0 bs <> a).
Proof.
  intros Ha Hc Hk bs.
  assert (Hin : In k (seq 0 24)) by (apply in_seq; lia).
  pose proof (forall_bytes _ (misread_flags a) c Hc) as Hf. cbn beta in Hf.
  rewrite forallb_forall in Hf. specialize (Hf k Hin). apply eqb_prop in Hf.
  pose proof (forall_bytes _ (misread_bytes c) a Ha) as Hb. cbn beta in Hb.
  rewrite forallb_forall in Hb. specialize (Hb k Hin).
  fold bs in Hf, Hb. split.
  - rewrite (loop_synced_bits _ (map Pulse (map bit_width bs)) rest).
    + rewrite width_bit_value, Hf. reflexivity.
    + reflexivity.
    + unfold bs. now rewrite !length_map, flip_length.
    + apply width_is_bit.
  - destruct (Nat.ltb_spec k 8) as [Hlt | Hge].
    + apply negb_true_iff, Z.eqb_neq in Hb. tauto.
    + apply Z.eqb_eq in Hb. split; [lia | congruence].
Qed.

Lemma misread_bit_witness :
  let bs := flip 3 (frame_bits 0x55 CMD1) in
  loop (map Pulse (repeat startWidth startBitCount) ++
        map Pulse (map bit_width bs) ++ []) =
  Returned (frame_lines (byte_at 0 bs) (byte_at 1 bs) (byte_at 2 bs) (3 <? 8)%nat) [] /\
  ((3 < 8)%nat <-> byte_at 0 bs <> 0x55).
Proof. apply (misread_bit 0x55 CMD1 3 []); [lia | unfold CMD1; lia | lia]. Defined.

(** ** Noise before a frame *)

(** The do-while loop on a list in two parts. *)
Lemma wait_start_app (j l : list sample) :
  forall counter,
    wait_start counter (j ++ l) =
    match wait_start counter j with
    | Synced rest => Synced (rest ++ l)
    | AwaitStart counter' => wait_start counter' l
    end.
Proof.
  induction j as [|x j IH]; intros counter; [reflexivity|].
  cbn [app wait_start]. destruct (start_step counter x =? 0); [reflexivity | apply IH].
Qed.

(** While the loop waits, no start-sync has been measured. *)
Lemma waiting_no_start (j : list sample) (counter : Z) :
  wait_start Receiver.RF_START j = AwaitStart counter -> no_start j.
Proof.
  intros Hw q r -> Hend. rewrite wait_start_app in Hw.
  destruct (wait_start Receiver.RF_START q) as [rest | counter'] eqn:Hq; [discriminate|].
  destruct (wait_start_counter q [] Receiver.RF_START counter') as [_ Hrun];
    [cbn; lia | reflexivity | exact Hq |].
  apply ends_with_start_trailing in Hend. cbn [app] in Hrun. lia.
Qed.

(** Measurements without a start-sync that do not end in the start band
    leave the loop as it began. *)
Lemma wait_start_skips (j l : list sample) :
  no_start j -> trailing j = O ->
  wait_start Receiver.RF_START (j ++ l) = wait_start Receiver.RF_START l.
Proof.
  intros Hno Hrun. rewrite wait_start_app.
  destruct (wait_start_no_start j Hno) as [counter Hw]. rewrite Hw.
  destruct (wait_start_counter j [] Receiver.RF_START counter) as [Hc _];
    [cbn; lia | reflexivity | exact Hw |].
  cbn [app] in Hc. rewrite Hrun in Hc. now subst counter.
Qed.

(** X12: measurements before a frame that contain no four consecutive
    durations in the start band and do not end with one in the start band
    (noise pulses, time-outs, what is left of a frame that was joined
    midway) do not change how [loop] decodes the frame: it skips them and
    prints the telegram of the frame. *)
Theorem noise_before_frame (j : list sample) (a c i : Z) (rest : list sample) :
  0 <= a < 256 -> 0 <= c < 256 -> 0 <= i < 256 ->
  no_start j ->
  trailing j = O ->
  loop (j ++
        map Pulse (repeat startWidth startBitCount) ++
        map Pulse (map bit_width (byte_bits a ++ byte_bits c ++ byte_bits i)) ++ rest) =
  Returned (frame_lines a c i (i =? complement c)) rest.
Proof.
  intros Ha Hc Hi Hno Hrun.
  pose proof (loop_frame 0 a c i rest Ha Hc Hi) as H.
  cbn [repeat map app] in H. rewrite <- H.
  unfold loop. now rewrite wait_start_skips.
Qed.

Lemma noise_before_frame_witness :
  let j := [Pulse 900; Pulse 900; Pulse 900; Pulse 600; NoPulse; Pulse 5000; Pulse 300] in
  loop (j ++
        map Pulse (repeat startWidth startBitCount) ++
        map Pulse (map bit_width (byte_bits 0x55 ++ byte_bits 2 ++ byte_bits 253)) ++ []) =
  Returned (frame_lines 0x55 2 253 (253 =? complement 2)) [].
Proof.
  intros j.
  refine (noise_before_frame j 0x55 2 253 [] _ _ _ (waiting_no_start j 4 eq_refl) eq_refl);
    lia.
Defined.

(** ** The first call of [loop] on a signal in time *)

Import Timed.

Lemma normalize_alternating (l l' : bool) (a b : Z) (w : list segment) :
  Bool.eqb l l' = false ->
  normalize ((l, a) :: (l', b) :: w) = (l, a) :: normalize ((l', b) :: w).
Proof.
  intros Hl. cbn [normalize].
  destruct (normalize w) as [|[l'' u] r]; [now rewrite Hl|].
  destruct (Bool.eqb l' l''); now rewrite Hl.
Qed.

(** A telegram begins with two preamble pulses. *)
Lemma telegram_begins (a c : Z) :
  exists later,
    normalize (telegram a c) = (true, 300) :: (false, 295) :: (true, 300) :: later.
Proof.
  unfold telegram, preamble.
  change (concat (repeat (pulse bit0Width) preambleBitCount))
    with ((true, 300) :: (false, 295) :: (true, 300) :: (false, 295)
            :: concat (repeat (pulse bit0Width) 30)).
  cbn [app]. rewrite !normalize_alternating by reflexivity.
  eexists. reflexivity.
Qed.

Lemma pulseIn_at_low (timeout gap d : Z) (s : signal) :
  pulseIn_at timeout ((false, gap) :: (true, d) :: s) =
  if gap + d <=? timeout then (Pulse d, s)
  else (NoPulse, advance timeout ((false, gap) :: (true, d) :: s)).
Proof. reflexivity. Qed.

Lemma pulseIn_at_high (timeout r gap d : Z) (s : signal) :
  pulseIn_at timeout ((true, r) :: (false, gap) :: (true, d) :: s) =
  if r + gap + d <=? timeout then (Pulse d, s)
  else (NoPulse, advance timeout ((true, r) :: (false, gap) :: (true, d) :: s)).
Proof. reflexivity. Qed.

(** A call that measures nothing in the start band leaves the loop waiting
    with its counter at 4. *)
Lemma run_at_step (fuel : nat) (x : sample) (now later : signal) :
  pulseIn_at (14 * Receiver.RF_ERR) now = (x, later) ->
  in_start_band x = false ->
  run_at (S fuel) now =
  match run_at fuel later with
  | Some (data, heard, after) => Some (data, x :: heard, after)
  | None => None
  end.
Proof.
  intros Hp Hx. unfold run_at. cbn [wait_start_at]. rewrite Hp, start_step_band, Hx.
  change (4 =? 0) with false. cbn iota. change Receiver.RF_START with 4.
  destruct (wait_start_at fuel 4 later) as [[heard1 s1]|]; [|reflexivity].
  destruct (read_bits_at 24 1 (advance (2 * Receiver.RF_ERR) s1)) as [[data heard2] s2].
  reflexivity.
Qed.

Lemma collects_run (c : Z) (now : signal) :
  collects c now = true ->
  exists heard after, run_at 64 now = Some (frame_word ADDR c, heard, after).
Proof.
  unfold collects. destruct (run_at 64 now) as [[[data heard] after]|]; [|discriminate].
  intros H. apply Z.eqb_eq in H. subst data. now exists heard, after.
Qed.

Lemma telegram_collected :
  forallb
    (fun c =>
       let now := normalize (telegram ADDR c) in
       collects c now && collects c (tl now) && collects c (skipn 3 now))
    bytes = true.
Proof. vm_compute. reflexivity. Qed.

(** Whenever the receiver began to listen before the telegram, it collects
    the frame word of the first repetition. *)
Lemma silence_then_telegram (c : Z) (n : nat) :
  0 <= c < 256 ->
  forall quiet,
    0 <= quiet <= 2100 * Z.of_nat n ->
    exists fuel heard after,
      run_at fuel ((false, quiet) :: normalize (telegram ADDR c)) =
      Some (frame_word ADDR c, heard, after).
Proof.
  intros Hc.
  pose proof (forall_bytes _ telegram_collected c Hc) as Hall. cbv beta zeta in Hall.
  apply andb_true_iff in Hall as [Hall H3]. apply andb_true_iff in Hall as [H0 H1].
  destruct (telegram_begins ADDR c) as [later Hw]. rewrite Hw in *.
  cbn [tl skipn] in H1, H3.
  apply collects_run in H0 as (h0 & a0 & H0).
  apply collects_run in H1 as (h1 & a1 & H1).
  apply collects_run in H3 as (h3 & a3 & H3).
  induction n as [|n IH]; intros quiet Hq.
  - (* the telegram begins with the call *)
    exists 65%nat, (Pulse 300 :: h1), a1.
    rewrite (run_at_step 64 (Pulse 300) _ ((false, 295) :: (true, 300) :: later));
      [now rewrite H1 | | reflexivity].
    rewrite pulseIn_at_low. change (14 * Receiver.RF_ERR) with 2100.
    destruct (Z.leb_spec (quiet + 300) 2100); [reflexivity | lia].
  - destruct (Z.le_gt_cases quiet 1800) as [Hfirst | Hlate].
    + (* the first burst ends within the time-out *)
      exists 65%nat, (Pulse 300 :: h1), a1.
      rewrite (run_at_step 64 (Pulse 300) _ ((false, 295) :: (true, 300) :: later));
        [now rewrite H1 | | reflexivity].
      rewrite pulseIn_at_low. change (14 * Receiver.RF_ERR) with 2100.
      destruct (Z.leb_spec (quiet + 300) 2100); [reflexivity | lia].
    + assert (Hout : pulseIn_at (14 * Receiver.RF_ERR)
                       ((false, quiet) :: (true, 300) :: (false, 295) :: (true, 300) :: later)
                     = (NoPulse,
                        advance 2100
                          ((false, quiet) :: (true, 300) :: (false, 295) :: (true, 300) :: later))).
      { rewrite pulseIn_at_low. change (14 * Receiver.RF_ERR) with 2100.
        destruct (Z.leb_spec (quiet + 300) 2100); [lia | reflexivity]. }
      destruct (Z.lt_trichotomy quiet 2100) as [Hlt | [Heq | Hgt]].
      * (* the call gives up within the first burst; the next one measures
           the second burst *)
        exists 66%nat, (NoPulse :: Pulse 300 :: h3), a3.
        rewrite (run_at_step 65 NoPulse _ _ Hout eq_refl).
        cbn [advance]. destruct (Z.ltb_spec 2100 quiet); [lia|].
        destruct (Z.ltb_spec (2100 - quiet) 300); [|lia].
        rewrite (run_at_step 64 (Pulse 300) _ later); [now rewrite H3 | | reflexivity].
        rewrite pulseIn_at_high. change (14 * Receiver.RF_ERR) with 2100.
        destruct (Z.leb_spec (300 - (2100 - quiet) + 295 + 300) 2100); [reflexivity | lia].
      * (* the call gives up as the telegram begins *)
        subst quiet. exists 65%nat, (NoPulse :: h0), a0.
        rewrite (run_at_step 64 NoPulse _ _ Hout eq_refl).
        change (advance 2100
                  ((false, 2100) :: (true, 300) :: (false, 295) :: (true, 300) :: later))
          with ((true, 300) :: (false, 295) :: (true, 300) :: later).
        now rewrite H0.
      * (* the call gives up before the telegram begins *)
        destruct (IH (quiet - 2100)) as (fuel & heard & after & Hrun); [lia|].
        exists (S fuel), (NoPulse :: heard), after.
        rewrite (run_at_step fuel NoPulse _ _ Hout eq_refl).
        cbn [advance]. destruct (Z.ltb_spec 2100 quiet); [|lia].
        now rewrite Hrun.
Qed.

(** The loops on a signal are the loops of [loop] on what was measured. *)
Lemma wait_start_at_heard (fuel : nat) :
  forall counter now heard after l,
    wait_start_at fuel counter now = Some (heard, after) ->
    wait_start counter (heard ++ l) = Synced l.
Proof.
  induction fuel as [|fuel IH]; intros counter now heard after l Hw; [discriminate|].
  cbn [wait_start_at] in Hw.
  destruct (pulseIn_at (14 * Receiver.RF_ERR) now) as [x later].
  destruct (start_step counter x =? 0) eqn:Hstep.
  - injection Hw as <- <-. cbn [app wait_start]. now rewrite Hstep.
  - destruct (wait_start_at fuel (start_step counter x) later) as [[heard' s]|] eqn:Hrec;
      [|discriminate].
    injection Hw as <- <-. cbn [app wait_start]. rewrite Hstep.
    now apply (IH _ _ _ _ l) in Hrec.
Qed.

Lemma read_bits_at_heard (i : nat) :
  forall data now d heard after,
    read_bits_at i data now = (d, heard, after) ->
    read_bits i data heard = Read d [].
Proof.
  induction i as [|i IH]; intros data now d heard after Hr.
  - cbn in Hr. now injection Hr as <- <- <-.
  - cbn [read_bits_at] in Hr.
    destruct (pulseIn_at (10 * Receiver.RF_ERR) now) as [x later].
    destruct (read_bit data x) as [|data'] eqn:Hbit.
    + injection Hr as <- <- <-. cbn [read_bits]. now rewrite Hbit.
    + destruct (read_bits_at i data' later) as [[d' heard'] s] eqn:Hrec.
      injection Hr as <- <- <-. cbn [read_bits]. rewrite Hbit.
      now apply IH in Hrec.
Qed.

Lemma run_at_loop (fuel : nat) (now : signal) (data : Z) (heard : list sample)
      (after : signal) :
  run_at fuel now = Some (data, heard, after) ->
  loop heard = Returned (check_reading data) [].
Proof.
  unfold run_at, loop.
  destruct (wait_start_at fuel Receiver.RF_START now) as [[heard1 s1]|] eqn:Hw;
    [|discriminate].
  destruct (read_bits_at 24 1 (advance (2 * Receiver.RF_ERR) s1)) as [[d heard2] s2] eqn:Hr.
  intros [= <- <- <-].
  rewrite (wait_start_at_heard _ _ _ _ _ heard2 Hw).
  now rewrite (read_bits_at_heard _ _ _ _ _ _ Hr).
Qed.

(** X14: with the time-outs of [pulseIn] followed on the signal in time
    (14 * RF_ERR while waiting for the start bits, 10 * RF_ERR while
    reading bits, and the delay of 2 * RF_ERR in between), a receiver that
    began to listen any time before the telegram prints, in that call of
    [loop], the valid telegram with the command sent; and what it measured
    on the way is a list on which [loop] prints the same. *)
Theorem first_call_in_time (c quiet : Z) :
  0 <= c < 256 ->
  0 <= quiet ->
  exists fuel heard after,
    loop_at fuel ((false, quiet) :: normalize (wave (sendCode c idle))) =
    Heard (frame_lines 0x55 c (complement c) true) heard after /\
    loop heard = Returned (frame_lines 0x55 c (complement c) true) [].
Proof.
  intros Hc Hq. sent_from_idle Hc.
  destruct (silence_then_telegram c (Z.to_nat quiet) Hc quiet) as (fuel & heard & after & Hrun);
    [rewrite Z2Nat.id by lia; lia|].
  assert (Hlines : check_reading (frame_word ADDR c) =
                   frame_lines 0x55 c (complement c) true).
  { unfold frame_word. rewrite check_reading_frame by (unfold ADDR; lia).
    rewrite complement_byte by exact Hc. now rewrite Z.eqb_refl. }
  exists fuel, heard, after. split.
  - unfold loop_at. now rewrite Hrun, Hlines.
  - rewrite <- Hlines. exact (run_at_loop _ _ _ _ _ Hrun).
Qed.

Lemma first_call_in_time_witness :
  exists fuel heard after,
    loop_at fuel ((false, 1900) :: normalize (wave (sendCode CMD4 idle))) =
    Heard (frame_lines 0x55 CMD4 (complement CMD4) true) heard after /\
    loop heard = Returned (frame_lines 0x55 CMD4 (complement CMD4) true) [].
Proof. apply (first_call_in_time CMD4 1900); [unfold CMD4; lia | lia]. Defined.

(** ** Across the stop gap *)









